(** * zwave-exporter: the 'value updated' reaction and the RSS watchdog

    A shallow embedding of [src/exporter.js] and the properties of its
    metric translation, registry cache, energy accrual and watchdog.

    Conventions of the embedding.
    - A JavaScript string is the list of its UTF-16 code units.
    - A number of the handler is an exact rational or [NaN]; the rounding
      of its arithmetic to binary64 and the infinities are outside the
      model. [parseInt] is modelled with its rounding to binary64.
    - The objects [metrics] and [consumption] are finite maps from property
      names; gauges live in a store and are held by reference, because the
      Prometheus registry and [metrics] share them.
    - Calls into prom-client are recorded with their arguments
      ([registry], [consumed_counter], [g_sets]). Whether such a call
      returns or throws is decided by the library, which is not part of
      the program: it is a parameter of the model ([Runtime]). What a
      call that throws leaves behind in the program's own state is kept.
    - The calls of [log] inside the handler only write to the console and
      are left out of it; [log] itself is modelled on its own. *)

From Stdlib Require Import QArith Lqa.
From Stdlib Require Import Ascii String DecimalString DecimalPos DecimalN.
From stdpp Require Import gmap list.

Set Default Proof Using "Type".

(** ** Strings *)

Abbreviation jsstring := (list N).

(** An ASCII literal as code units. *)
Definition lit (s : string) : jsstring :=
  (λ a, N_of_ascii a) <$> list_ascii_of_string s.

Definition SPACE : N := 32.
Definition UNDERSCORE : N := 95.
Definition LPAREN : N := 40.
Definition RPAREN : N := 41.
Definition DIGIT_2 : N := 50.
Definition SUBSCRIPT_2 : N := 8322. (* U+2082 *)
Definition DEGREE : N := 176.       (* U+00B0 *)

(** [s.replace(/c/g, d)] for a single code unit [c]. *)
Definition replace_all (c d : N) (s : jsstring) : jsstring :=
  (λ x, if (x =? c)%N then d else x) <$> s.

(** [s.replace(/[()]/g, '')]. *)
Definition strip_parens (s : jsstring) : jsstring :=
  List.filter (λ x, negb ((x =? LPAREN)%N || (x =? RPAREN)%N)) s.

(** ** Numbers *)

Inductive number :=
| NaN
| Fin (q : Q).

Definition num_mul (x y : number) : number :=
  match x, y with
  | Fin a, Fin b => Fin (a * b)
  | _, _ => NaN
  end.

Definition num_add (x y : number) : number :=
  match x, y with
  | Fin a, Fin b => Fin (a + b)
  | _, _ => NaN
  end.

(** Equality and order of numbers as values; both are false on [NaN]. *)
Definition num_eq (x y : number) : Prop :=
  match x, y with
  | Fin a, Fin b => a == b
  | _, _ => False
  end.

Definition num_le (x y : number) : Prop :=
  match x, y with
  | Fin a, Fin b => (a <= b)%Q
  | _, _ => False
  end.

Definition num_lt (x y : number) : Prop :=
  match x, y with
  | Fin a, Fin b => (a < b)%Q
  | _, _ => False
  end.

(** [ToNumber] on what [metricValue] can hold: [undefined] or a number. *)
Definition to_number (v : option number) : number :=
  match v with
  | Some x => x
  | None => NaN
  end.

(** ** Errors *)

(** The exceptions: a [TypeError], or a plain [Error]. *)
Inductive error :=
| TypeError
| Error.

#[global] Instance error_eq_dec : EqDecision error.
Proof. solve_decision. Defined.

Inductive result (A : Type) :=
| Ok (a : A)
| Throw (e : error).
Arguments Ok {A} a.
Arguments Throw {A} e.

#[global] Instance result_ret : MRet result := λ A a, Ok a.

#[global] Instance result_bind : MBind result := λ A B k r,
  match r with
  | Ok a => k a
  | Throw e => Throw e
  end.

(** ** What the engine and prom-client provide

    [toLowerCase] is [String.prototype.toLowerCase]. [inherited_text k] is
    the text that string concatenation yields for the member [k] that a
    plain object inherits from [Object.prototype].

    The three calls into prom-client either return or throw:
    [gauge_throws name help] is the exception of
    [new prometheus.Gauge({name, help, labelNames})], [inc_throws] the one
    of [consumed_counter.inc(labels, amount)] and [set_throws] the one of
    [gauge.set(labels, value)]; [None] when the call returns. Each is a
    function of the arguments of the call: the registry holds the counter
    of line 52 and the gauges cached in [metrics], and the constructor is
    only called with a name that [metrics] does not cache. *)

(** Line 111: the label set of a sample. *)
Record labels := {
  l_node : N;
  l_endpoint : N;
  l_name : option jsstring;
}.

Record Runtime := {
  toLowerCase : jsstring → jsstring;
  inherited_text : jsstring → jsstring;
  gauge_throws : jsstring → jsstring → option error;
  inc_throws : labels → number → option error;
  set_throws : labels → option number → option error;
}.

(** The property names every plain object inherits from [Object.prototype]. *)
Definition Object_prototype_keys : list jsstring :=
  lit <$> [ "constructor"; "hasOwnProperty"; "isPrototypeOf";
            "propertyIsEnumerable"; "toLocaleString"; "toString"; "valueOf";
            "__proto__"; "__defineGetter__"; "__defineSetter__";
            "__lookupGetter__"; "__lookupSetter__" ]%string.

Definition is_inherited (k : jsstring) : bool :=
  bool_decide (k ∈ Object_prototype_keys).

(** ** Events

    [value.newValue]: a primitive, or an object seen through the two
    properties the handler reads, [value] and [unit], each [None] when the
    object has none (or a nullish one, for [unit]). *)

Inductive payload :=
| PUndefined
| PNull
| PBool (b : bool)
| PNum (x : number)
| PStr (s : jsstring)
| PObj (value : option number) (unit : option jsstring).

Record metadata := {
  m_unit : option jsstring;
  m_label : jsstring;
}.

Record node := {
  node_id : N;
  node_name : option jsstring;
}.

Record value_event := {
  endpoint : N;
  propertyName : jsstring;
  propertyKeyName : option jsstring;
  newValue : payload;
}.

(** ** Operators on optional strings: [None] is [undefined] or [null] *)

Definition truthy (o : option jsstring) : bool :=
  match o with
  | Some (_ :: _) => true
  | _ => false
  end.

(** [a || b] with [b] a string. *)
Definition or_else (a : option jsstring) (b : jsstring) : jsstring :=
  match a with
  | Some (c :: k) => c :: k
  | _ => b
  end.

(** [a ?? b]. *)
Definition nullish {A} (a b : option A) : option A :=
  match a with
  | Some x => Some x
  | None => b
  end.

(** ** Lines 81–93: name selection and value coercion *)

Definition value_name (v : value_event) : jsstring :=
  or_else (propertyKeyName v) (propertyName v).

Definition coerce (newValue : payload) (meta_unit : option jsstring)
  : result (option jsstring * option number) :=
  match newValue with
  | PBool b => Ok (None, Some (Fin (if b then 1 else 0)))
  | PNum x => Ok (meta_unit, Some x)
  | PUndefined | PNull => Throw TypeError
  | PStr _ => Ok (meta_unit, None)
  | PObj value unit => Ok (nullish unit meta_unit, value)
  end.

(** ** Lines 16–24 and 94–102: the suffix and the metric name *)

Definition unit_mapping : gmap jsstring jsstring :=
  list_to_map
    [ (lit "A", lit "_amperes");
      (DEGREE :: lit "C", lit "_celsius");
      (lit "kWh", lit "_kwh");
      (lit "%", lit "_percent");
      (lit "ppm", lit "_ppm");
      (lit "V", lit "_volts");
      (lit "W", lit "_watts") ].

(** [unit_mapping[unit] ?? unit]: an own entry, else a member inherited
    from [Object.prototype], else the unit itself. *)
Definition mapped_or_self (rt : Runtime) (unit : jsstring) : jsstring :=
  match unit_mapping !! unit with
  | Some s => s
  | None => if is_inherited unit then inherited_text rt unit else unit
  end.

Definition suffix (rt : Runtime) (unit : option jsstring) : jsstring :=
  match unit with
  | Some (c :: u) => mapped_or_self rt (c :: u)
  | _ => []
  end.

Definition sanitize (rt : Runtime) (raw : jsstring) : jsstring :=
  strip_parens
    (replace_all SUBSCRIPT_2 DIGIT_2
       (replace_all SPACE UNDERSCORE (toLowerCase rt raw))).

Definition metric_name (rt : Runtime) (raw sfx : jsstring) : jsstring :=
  lit "zwave_" ++ sanitize rt raw ++ sfx.

(** ** Lines 15 and 51–56: the process-wide state *)

(** A [prometheus.Gauge]: its options and the [set] calls it received,
    oldest first. *)
Record gauge := {
  g_name : jsstring;
  g_help : jsstring;
  g_sets : list (labels * option number);
}.

(** An entry of [consumption]. *)
Record rec := {
  last : Q;
  joules : number;
}.

Record state := {
  metrics : gmap jsstring nat;      (* identifier -> reference to its gauge *)
  store : list gauge;               (* the gauges, by reference *)
  registry : list nat;              (* gauges registered with prom-client *)
  consumption : gmap jsstring rec;
  consumed_counter : list (labels * number); (* the [inc] calls, oldest first *)
}.

Definition initial : state :=
  {| metrics := ∅; store := []; registry := [];
     consumption := ∅; consumed_counter := [] |}.

(** ** Lines 103–110: create the gauge on first sight of its name *)

(** [name in metrics]: an own property or one from [Object.prototype]. *)
Definition has_property (m : gmap jsstring nat) (name : jsstring) : bool :=
  bool_decide (is_Some (m !! name)) || is_inherited name.

(** A constructor call that returns: the gauge is allocated and registered,
    and the assignment caches the reference. *)
Definition new_gauge (s : state) (name help : jsstring) : state :=
  let r := length (store s) in
  {| metrics := <[name := r]> (metrics s);
     store := store s ++ [{| g_name := name; g_help := help; g_sets := [] |}];
     registry := registry s ++ [r];
     consumption := consumption s;
     consumed_counter := consumed_counter s |}.

(** Each part of the handler gives the state it leaves and the exception
    that ended it, if any. When [new prometheus.Gauge] throws, the
    assignment to [metrics[metric_name]] does not happen. *)
Definition register_metric (rt : Runtime) (s : state) (name help : jsstring)
  : state * option error :=
  if has_property (metrics s) name then (s, None)
  else
    match gauge_throws rt name help with
    | Some e => (s, Some e)
    | None => (new_gauge s name help, None)
    end.

(** ** Lines 112–126: energy accrual *)

Definition decimal (n : N) : jsstring :=
  lit (NilZero.string_of_uint (N.to_uint n)).

(** The template string [`${node.id}:${value.endpoint}`]. *)
Definition consumption_key (n : node) (v : value_event) : jsstring :=
  decimal (node_id n) ++ lit ":" ++ decimal (endpoint v).

Definition electric_w_consumed_watts : jsstring :=
  lit "zwave_electric_w_consumed_watts".

(** The body of the branch; [consumption[key]] can only be an own entry,
    see [consumption_key_not_inherited]. [rec.last] and [rec.joules] are
    written before [inc] is called, so they stay written when it throws. *)
Definition accrue (rt : Runtime) (s : state) (key : jsstring) (lbl : labels)
    (metricValue : option number) (time : Q) : state * option error :=
  match consumption s !! key with
  | Some r =>
      let elapsed := ((time - last r) / 1000)%Q in
      let energy := num_mul (to_number metricValue) (Fin elapsed) in
      ({| metrics := metrics s; store := store s; registry := registry s;
          consumption :=
            <[key := {| last := time; joules := num_add (joules r) energy |}]>
              (consumption s);
          consumed_counter := consumed_counter s ++ [(lbl, energy)] |},
       inc_throws rt lbl energy)
  | None =>
      ({| metrics := metrics s; store := store s; registry := registry s;
          consumption :=
            <[key := {| last := time; joules := Fin 0 |}]> (consumption s);
          consumed_counter := consumed_counter s |},
       None)
  end.

(** ** Line 127: [metrics[metric_name].set(labels, metricValue)] *)

Definition gauge_set (g : gauge) (lbl : labels) (v : option number) : gauge :=
  {| g_name := g_name g; g_help := g_help g; g_sets := g_sets g ++ [(lbl, v)] |}.

(** The call is recorded on the gauge; [undefined.set] is a [TypeError]. *)
Definition set_metric (rt : Runtime) (s : state) (name : jsstring)
    (lbl : labels) (v : option number) : state * option error :=
  match metrics s !! name with
  | Some r =>
      ({| metrics := metrics s;
          store := alter (λ g, gauge_set g lbl v) r (store s);
          registry := registry s;
          consumption := consumption s;
          consumed_counter := consumed_counter s |},
       set_throws rt lbl v)
  | None => (s, Some TypeError)
  end.

(** Line 111: [{ node: node.id, endpoint: value.endpoint, name: node.name }]. *)
Definition labels_of (n : node) (v : value_event) : labels :=
  {| l_node := node_id n; l_endpoint := endpoint v; l_name := node_name n |}.

(** ** Lines 70–128: the 'value updated' handler

    [md] is [node.getValueMetadata(value)] and [time] is what
    [performance.now()] returns, in milliseconds. *)

(** Go on with [k] unless the part before has thrown. *)
Definition and_then (x : state * option error)
    (k : state → state * option error) : state * option error :=
  match x with
  | (s, None) => k s
  | (s, Some e) => (s, Some e)
  end.

(** The handler, with the state it leaves also when it throws. *)
Definition value_updated_steps (rt : Runtime) (s : state) (n : node)
    (v : value_event) (md : metadata) (time : Q) : state * option error :=
  match coerce (newValue v) (m_unit md) with
  | Throw e => (s, Some e)
  | Ok (unit, metricValue) =>
      let name := metric_name rt (value_name v) (suffix rt unit) in
      let lbl := labels_of n v in
      and_then (register_metric rt s name (m_label md)) (λ s1,
      and_then (if decide (name = electric_w_consumed_watts)
                then accrue rt s1 (consumption_key n v) lbl metricValue time
                else (s1, None)) (λ s2,
      set_metric rt s2 name lbl metricValue))
  end.

(** The handler as the caller sees it: it returns or it throws. *)
Definition value_updated (rt : Runtime) (s : state) (n : node)
    (v : value_event) (md : metadata) (time : Q) : result state :=
  match value_updated_steps rt s n v md time with
  | (s', None) => Ok s'
  | (_, Some e) => Throw e
  end.

(** ** The process as a sequence of reactions

    The state after a reaction is what the handler had written when it
    returned or threw. A run is a sequence of reactions of one process; if
    an exception ends the process, the run ends there. *)

Record update := {
  u_node : node;
  u_value : value_event;
  u_meta : metadata;
  u_time : Q;
}.

Definition at_time (n : node) (v : value_event) (md : metadata) (t : Q) : update :=
  {| u_node := n; u_value := v; u_meta := md; u_time := t |}.

Definition react (rt : Runtime) (s : state) (u : update) : state :=
  (value_updated_steps rt s (u_node u) (u_value u) (u_meta u) (u_time u)).1.

Definition run (rt : Runtime) (s : state) (us : list update) : state :=
  foldl (react rt) s us.

(** ** Lines 12 and 141–150: the watchdog *)

Definition is_whitespace (c : N) : bool :=
  bool_decide (c ∈ [9; 10; 11; 12; 13; 32; 160; 5760; 8232; 8233; 8239;
                    8287; 12288; 65279]%N)
  || ((8192 <=? c) && (c <=? 8202))%N.

Definition digit_value (c : N) : option Z :=
  if ((48 <=? c) && (c <=? 57))%N then Some (Z.of_N c - 48)%Z else None.

(** The value of the longest prefix of decimal digits; [None] when there
    is no digit. *)
Fixpoint digits (acc : option Z) (s : jsstring) : option Z :=
  match s with
  | [] => acc
  | c :: k =>
      match digit_value c with
      | Some d => digits (Some (default 0 acc * 10 + d)%Z) k
      | None => acc
      end
  end.

Fixpoint trim_start (s : jsstring) : jsstring :=
  match s with
  | c :: k => if is_whitespace c then trim_start k else s
  | [] => []
  end.

(** What [parseInt] returns: [NaN], an integer that is a binary64, or an
    infinity. *)
Inductive parsed :=
| Not_a_number
| Int (z : Z)
| Infinity (negative : bool).

(** The binary64 nearest to the natural number [m], ties to the even
    significand; [None] when that is infinite. A number above 2^53 keeps
    53 significant bits. This is the number V8 returns for a run of decimal
    digits of any length. *)
Definition to_binary64 (m : Z) : option Z :=
  let k := (Z.log2 m - 52)%Z in
  if (k <=? 0)%Z then Some m
  else
    let q := (m / 2 ^ k)%Z in
    let r := (m mod 2 ^ k)%Z in
    let half := (2 ^ (k - 1))%Z in
    let q' := if (r >? half)%Z || ((r =? half)%Z && Z.odd q)
              then (q + 1)%Z else q in
    let x := (q' * 2 ^ k)%Z in
    if (x <? 2 ^ 1024)%Z then Some x else None.

Definition number_of (negative : bool) (digits_read : option Z) : parsed :=
  match digits_read with
  | None => Not_a_number
  | Some m =>
      match to_binary64 m with
      | Some x => Int (if negative then - x else x)
      | None => Infinity negative
      end
  end.

(** [parseInt(s, 10)]. *)
Definition parseInt (s : jsstring) : parsed :=
  match trim_start s with
  | 45%N :: k => number_of true (digits None k)
  | 43%N :: k => number_of false (digits None k)
  | k => number_of false (digits None k)
  end.

(** [parseInt(process.env.MAX_RSS, 10) || 0]; an unset variable is
    [undefined], which [parseInt] reads as the text "undefined". *)
Definition MAX_RSS (env : option jsstring) : parsed :=
  match parseInt (default (lit "undefined") env) with
  | Int n => Int n
  | Infinity negative => Infinity negative
  | Not_a_number => Int 0
  end.

Inductive outcome :=
| Running
| Exited (status : Z).

(** One firing of the interval callback, with the [rss] it reads. *)
Definition watchdog_tick (max_rss rss : Z) : outcome :=
  if (rss >? max_rss)%Z then Exited 1 else Running.

Fixpoint watchdog_ticks (max_rss : Z) (readings : list Z) : outcome :=
  match readings with
  | [] => Running
  | rss :: rest =>
      match watchdog_tick max_rss rss with
      | Exited st => Exited st
      | Running => watchdog_ticks max_rss rest
      end
  end.

(** The interval is installed only when [MAX_RSS > 0]; [readings] are the
    resident set sizes at its successive firings. *)
Definition watchdog (max_rss : Z) (readings : list Z) : outcome :=
  if (max_rss >? 0)%Z then watchdog_ticks max_rss readings else Running.

(** The same for every value [MAX_RSS] can have: no reading is above
    [Infinity], and with [-Infinity] the interval is not installed. *)
Definition watchdog_of (max_rss : parsed) (readings : list Z) : outcome :=
  match max_rss with
  | Int z => watchdog z readings
  | Infinity _ | Not_a_number => Running
  end.

(** ** A runtime to evaluate examples with

    Its [toLowerCase] is that of JavaScript on every string whose cased
    letters are all ASCII. Its three library calls follow prom-client: the
    constructor refuses a name outside [[a-zA-Z_:][a-zA-Z0-9_:]*], an empty
    help text and the name the counter of line 52 already has; [inc]
    refuses a negative amount; [set] refuses a value that is not a
    number. *)

Definition lower_unit (c : N) : N :=
  if ((65 <=? c) && (c <=? 90))%N then (c + 32)%N else c.

Definition native_text (k : jsstring) : jsstring :=
  if decide (k = lit "__proto__") then lit "[object Object]"
  else lit "function "
       ++ (if decide (k = lit "constructor") then lit "Object" else k)
       ++ lit "() { [native code] }".

Definition name_start (c : N) : bool :=
  (((65 <=? c) && (c <=? 90)) || ((97 <=? c) && (c <=? 122))
   || (c =? 95) || (c =? 58))%N.

Definition name_char (c : N) : bool :=
  name_start c || ((48 <=? c) && (c <=? 57))%N.

Definition valid_metric_name (name : jsstring) : bool :=
  match name with
  | c :: k => name_start c && forallb name_char k
  | [] => false
  end.

Definition prom_gauge_throws (name help : jsstring) : option error :=
  if valid_metric_name name
     && negb (bool_decide (help = []))
     && negb (bool_decide (name = lit "zwave_estimated_power_joules"))
  then None else Some Error.

Definition prom_inc_throws (lbl : labels) (amount : number) : option error :=
  match amount with
  | Fin q => if Qle_bool 0 q then None else Some Error
  | NaN => None
  end.

Definition prom_set_throws (lbl : labels) (value : option number)
  : option error :=
  match value with
  | Some _ => None
  | None => Some TypeError
  end.

Definition ascii_runtime : Runtime :=
  {| toLowerCase := fmap lower_unit; inherited_text := native_text;
     gauge_throws := prom_gauge_throws; inc_throws := prom_inc_throws;
     set_throws := prom_set_throws |}.

(** ** Predicates used in the statements *)

(** The characters the name derivation removes or replaces. *)
Definition clean_unit (c : N) : bool :=
  negb ((c =? SPACE) || (c =? SUBSCRIPT_2) || (c =? LPAREN) || (c =? RPAREN))%N.

Definition clean (s : jsstring) : bool := forallb clean_unit s.

(** The three payload shapes of the value contract. *)
Definition valid_shape (p : payload) : bool :=
  match p with
  | PBool _ | PNum _ | PObj _ _ => true
  | _ => false
  end.

(** The cache and the store agree, and every gauge was registered once. *)
Record cache_ok (s : state) : Prop := {
  ok_metrics : ∀ name r, metrics s !! name = Some r →
               ∃ g, store s !! r = Some g ∧ g_name g = name;
  ok_store : ∀ r g, store s !! r = Some g → metrics s !! g_name g = Some r;
  ok_registry : registry s = seq 0 (length (store s));
}.

(** Every accumulator holds a finite total and a timestamp not after [lo]. *)
Definition accumulators_before (lo : Q) (s : state) : Prop :=
  ∀ k r, consumption s !! k = Some r →
         (last r <= lo)%Q ∧ ∃ j, joules r = Fin j.

(** An [inc] call whose amount is a number that is not negative. *)
Definition nonneg_delta (x : labels * number) : Prop := num_le (Fin 0) x.2.

(** The timestamps of [us] never go back, starting from [lo]. *)
Fixpoint ascending (lo : Q) (us : list update) : Prop :=
  match us with
  | [] => True
  | u :: rest => (lo <= u_time u)%Q ∧ ascending (u_time u) rest
  end.

(** The timestamp of the latest update of [us], or [lo] when there is none. *)
Definition final_time (lo : Q) (us : list update) : Q :=
  foldl (λ _ u, u_time u) lo us.

(** The gauge of [name] is cached, or prom-client accepts to create it. *)
Definition creatable (rt : Runtime) (s : state) (name help : jsstring) : Prop :=
  is_Some (metrics s !! name) ∨ gauge_throws rt name help = None.

(** The exception of the accrual branch for an event, if it has one. *)
Definition accrual_throws (rt : Runtime) (s : state) (n : node)
    (v : value_event) (name : jsstring) (mv : option number) (time : Q)
  : option error :=
  if decide (name = electric_w_consumed_watts)
  then (accrue rt s (consumption_key n v) (labels_of n v) mv time).2
  else None.

(** No call into prom-client ever throws. *)
Definition never_throws (rt : Runtime) : Prop :=
  (∀ name help, gauge_throws rt name help = None)
  ∧ (∀ lbl amount, inc_throws rt lbl amount = None)
  ∧ (∀ lbl value, set_throws rt lbl value = None).

(** The reaction gets as far as line 127: no call before it throws. *)
Definition reaches_set (rt : Runtime) (s : state) (n : node) (v : value_event)
    (md : metadata) (time : Q) (unit : option jsstring) (mv : option number)
  : Prop :=
  creatable rt s (metric_name rt (value_name v) (suffix rt unit)) (m_label md)
  ∧ accrual_throws rt s n v (metric_name rt (value_name v) (suffix rt unit))
      mv time = None.

(** The reaction to [v] in state [s] calls [set] with [mv] on the gauge
    cached under the identifier of [raw] and [unit], as the last call that
    gauge received, and returns or throws as that call does. *)
Definition handled (rt : Runtime) (s : state) (n : node) (v : value_event)
    (md : metadata) (time : Q) (raw : jsstring) (unit : option jsstring)
    (mv : option number) : Prop :=
  ∃ r g,
    metrics (react rt s (at_time n v md time))
      !! metric_name rt raw (suffix rt unit) = Some r
    ∧ store (react rt s (at_time n v md time)) !! r = Some g
    ∧ g_name g = metric_name rt raw (suffix rt unit)
    ∧ (∃ earlier, g_sets g = earlier ++ [(labels_of n v, mv)])
    ∧ value_updated rt s n v md time
      = match set_throws rt (labels_of n v) mv with
        | None => Ok (react rt s (at_time n v md time))
        | Some e => Throw e
        end.

(** The energy of one accrual: [metricValue * elapsed]. *)
Definition energy (mv : option number) (time before : Q) : number :=
  num_mul (to_number mv) (Fin ((time - before) / 1000)).

(** A routed sample carries a non-negative number. *)
Definition power_sample_ok (rt : Runtime) (u : update) : Prop :=
  match coerce (newValue (u_value u)) (m_unit (u_meta u)) with
  | Ok (unit, mv) =>
      metric_name rt (value_name (u_value u)) (suffix rt unit)
      = electric_w_consumed_watts →
      ∃ p, mv = Some (Fin p) ∧ (0 <= p)%Q
  | Throw _ => True
  end.

(** ** Sample data *)

Definition node7 : node := {| node_id := 7; node_name := Some (lit "Heater") |}.

Definition watts : metadata :=
  {| m_unit := Some (lit "W"); m_label := lit "Electric Consumption [W]" |}.

Definition power (x : Q) : value_event :=
  {| endpoint := 0; propertyName := lit "value";
     propertyKeyName := Some (lit "Electric W Consumed");
     newValue := PNum (Fin x) |}.

Definition sample (x t : Q) : update :=
  {| u_node := node7; u_value := power x; u_meta := watts; u_time := t |}.

(** ** Lines 6–7, 9 and 30–46: logging *)

Definition LOG_LEVELS : gmap jsstring N :=
  list_to_map
    [ (lit "debug", 1%N); (lit "info", 2%N); (lit "warn", 3%N);
      (lit "error", 4%N) ].

(** What [LOG_LEVELS[k]] yields: the number of an own entry, a member
    inherited from [Object.prototype], or [undefined]. *)
Inductive level_rank :=
| Rank (n : N)
| Member
| Absent.

Definition LOG_LEVELS_at (k : jsstring) : level_rank :=
  match LOG_LEVELS !! k with
  | Some n => Rank n
  | None => if is_inherited k then Member else Absent
  end.

(** [k in LOG_LEVELS]. *)
Definition LOG_LEVELS_has (k : jsstring) : bool :=
  bool_decide (is_Some (LOG_LEVELS !! k)) || is_inherited k.

(** [LOG_LEVELS[process.env.LOGLEVEL] || LOG_LEVELS.info]; an unset
    variable is the property key "undefined". *)
Definition LOG_LEVEL (env : option jsstring) : level_rank :=
  match LOG_LEVELS_at (default (lit "undefined") env) with
  | Rank n => if (n =? 0)%N then LOG_LEVELS_at (lit "info") else Rank n
  | Member => Member
  | Absent => LOG_LEVELS_at (lit "info")
  end.

(** [process.env.TIMESTAMPS || false], as the test of line 34 reads it. *)
Definition TIMESTAMPS (env : option jsstring) : bool := truthy env.

(** [a >= b]: an inherited member and [undefined] convert to [NaN], which
    compares false. *)
Definition rank_ge (a b : level_rank) : bool :=
  match a, b with
  | Rank n, Rank m => (m <=? n)%N
  | _, _ => false
  end.

(** A call [console[method](JSON.stringify(fields))]. *)
Record log_line (V : Type) := {
  method : jsstring;
  fields : gmap jsstring V;
}.
Arguments method {V} _.
Arguments fields {V} _.

(** [log(level, message, kv)]: [V] is the type of the values of [kv], [str]
    a string as such a value, [threshold] is [LOG_LEVEL], [timestamps] is
    [TIMESTAMPS] and [now] is [new Date().toJSON()]. The result is the call
    of the console, if there is one. *)
Definition log {V : Type} (str : jsstring → V) (threshold : level_rank)
    (timestamps : bool) (now : jsstring) (level : jsstring) (message : V)
    (kv : option (gmap jsstring V)) : option (log_line V) :=
  let kv0 := default ∅ kv in
  let kv1 := if timestamps then <[lit "t" := str now]> kv0 else kv0 in
  let kv2 := <[lit "level" := str level]> kv1 in
  let kv3 :=
    if LOG_LEVELS_has level then kv2
    else <[lit "original_level" := str level]> kv2 in
  let level' := if LOG_LEVELS_has level then level else lit "error" in
  let kv4 := <[lit "log" := message]> kv3 in
  if rank_ge (LOG_LEVELS_at level') threshold
  then Some {| method := level'; fields := kv4 |}
  else None.

(** ** Further notions used in the statements *)

(** The identifier a reaction works on; [None] when coercion throws. *)
Definition identifier_of (rt : Runtime) (u : update) : option jsstring :=
  match coerce (newValue (u_value u)) (m_unit (u_meta u)) with
  | Ok (unit, _) => Some (metric_name rt (value_name (u_value u)) (suffix rt unit))
  | Throw _ => None
  end.

(** The update reaches the energy accrual. *)
Definition is_routed (rt : Runtime) (u : update) : bool :=
  bool_decide (identifier_of rt u = Some electric_w_consumed_watts).

(** The update gets to the energy accrual: it is routed and its gauge is
    cached or can be created. *)
Definition accrues (rt : Runtime) (s : state) (u : update) : bool :=
  is_routed rt u
  && (bool_decide (is_Some (metrics s !! electric_w_consumed_watts))
      || bool_decide (gauge_throws rt electric_w_consumed_watts
                        (m_label (u_meta u)) = None)).

(** If the update is routed, prom-client accepts to create the gauge of the
    power metric with its description. *)
Definition power_gauge_accepted (rt : Runtime) (u : update) : Prop :=
  is_routed rt u = true →
  gauge_throws rt electric_w_consumed_watts (m_label (u_meta u)) = None.

(** The number of updates of [us] that get to the energy accrual, in a run
    from [s]. *)
Fixpoint accruals (rt : Runtime) (s : state) (us : list update) : nat :=
  match us with
  | [] => 0
  | u :: rest =>
      (if accrues rt s u then 1 else 0) + accruals rt (react rt s u) rest
  end.

(** The exception that ends the reaction to a coerced payload, if any: that
    of the first call into prom-client that throws. *)
Definition first_exception (rt : Runtime) (s : state) (n : node)
    (v : value_event) (md : metadata) (time : Q) (unit : option jsstring)
    (mv : option number) : option error :=
  let name := metric_name rt (value_name v) (suffix rt unit) in
  match metrics s !! name, gauge_throws rt name (m_label md) with
  | None, Some e => Some e
  | _, _ =>
      match accrual_throws rt s n v name mv time with
      | Some e => Some e
      | None => set_throws rt (labels_of n v) mv
      end
  end.

(** The amounts of the [inc] calls labelled with a node and an endpoint. *)
Definition deltas_of (id e : N) (calls : list (labels * number)) : list number :=
  snd <$> filter (λ x, l_node x.1 = id ∧ l_endpoint x.1 = e) calls.

(** The total of an accumulator is the sum of the deltas reported for its
    node and endpoint. *)
Definition totals_agree (s : state) : Prop :=
  ∀ n v,
    match consumption s !! consumption_key n v with
    | Some r =>
        joules r
        = foldl num_add (Fin 0)
            (deltas_of (node_id n) (endpoint v) (consumed_counter s))
    | None => deltas_of (node_id n) (endpoint v) (consumed_counter s) = []
    end.

(** Cache, store and registry grow together, and every cached identifier
    carries the prefix. *)
Definition cache_sized (s : state) : Prop :=
  size (metrics s) = length (store s)
  ∧ length (registry s) = length (store s)
  ∧ ∀ name r, metrics s !! name = Some r → ∃ rest, name = lit "zwave_" ++ rest.

(** ** More sample data *)

Definition node9 : node := {| node_id := 9; node_name := Some (lit "Boiler") |}.

Definition volts : metadata :=
  {| m_unit := Some (lit "V"); m_label := lit "Voltage [V]" |}.

Definition voltage (x : Q) : value_event :=
  {| endpoint := 0; propertyName := lit "value";
     propertyKeyName := Some (lit "Electric V");
     newValue := PNum (Fin x) |}.

(** A power event whose payload is a text. *)
Definition text_power : value_event :=
  {| endpoint := 0; propertyName := lit "value";
     propertyKeyName := Some (lit "Electric W Consumed");
     newValue := PStr (lit "n/a") |}.

(** * Properties *)

(** ** Identifiers and inherited members *)

Section names.
Context (rt : Runtime).

Lemma metric_name_not_inherited raw sfx :
  is_inherited (metric_name rt raw sfx) = false.
Proof.
  apply bool_decide_eq_false. unfold metric_name, Object_prototype_keys.
  cbn. intros H.
  repeat (apply elem_of_cons in H as [H | H]; [discriminate H |]).
  by apply elem_of_nil in H.
Qed.

Lemma consumption_key_not_inherited n v :
  is_inherited (consumption_key n v) = false.
Proof.
  apply bool_decide_eq_false. intros H.
  assert (Hc : 58%N ∈ consumption_key n v).
  { unfold consumption_key. rewrite !elem_of_app. right; left. apply list_elem_of_here. }
  revert Hc. generalize dependent (consumption_key n v). intros k H.
  unfold Object_prototype_keys in H. cbn in H.
  repeat (apply elem_of_cons in H as [-> | H];
          [intros Hc; repeat (apply elem_of_cons in Hc as [Hc | Hc]; [discriminate Hc |]);
           by apply elem_of_nil in Hc |]).
  by apply elem_of_nil in H.
Qed.

Lemma has_property_metric_name (m : gmap jsstring nat) raw sfx :
  has_property m (metric_name rt raw sfx)
  = bool_decide (is_Some (m !! metric_name rt raw sfx)).
Proof.
  unfold has_property. rewrite metric_name_not_inherited. apply orb_false_r.
Qed.

Lemma clean_app s1 s2 : clean (s1 ++ s2) = clean s1 && clean s2.
Proof. apply forallb_app. Qed.

Lemma clean_sanitize raw : clean (sanitize rt raw) = true.
Proof.
  unfold sanitize. generalize (toLowerCase rt raw). intros s.
  induction s as [| c s IH]; [done |].
  unfold strip_parens, replace_all in *. rewrite !fmap_cons. cbn [List.filter].
  unfold SPACE, SUBSCRIPT_2, UNDERSCORE, DIGIT_2, LPAREN, RPAREN in *.
  destruct (N.eqb_spec c 32) as [-> | H1]; [cbn; exact IH |].
  destruct (N.eqb_spec c 8322) as [-> | H2]; [cbn; exact IH |].
  destruct (N.eqb_spec c 40) as [-> | H3]; [cbn; exact IH |].
  destruct (N.eqb_spec c 41) as [-> | H4]; [cbn; exact IH |].
  cbn [negb orb]. unfold clean in *. cbn [forallb]. rewrite IH, andb_true_r.
  unfold clean_unit, SPACE, SUBSCRIPT_2, LPAREN, RPAREN.
  apply N.eqb_neq in H1, H2, H3, H4. by rewrite H1, H2, H3, H4.
Qed.

Lemma clean_metric_name raw sfx :
  clean (metric_name rt raw sfx) = clean sfx.
Proof.
  unfold metric_name. rewrite !clean_app, clean_sanitize. done.
Qed.
(** Every unit has a suffix, by one of four cases. *)
Lemma suffix_cases (unit : option jsstring) :
  (truthy unit = false ∧ suffix rt unit = [])
  ∨ ∃ u, unit = Some u
         ∧ ((∃ m, unit_mapping !! u = Some m ∧ suffix rt unit = m)
            ∨ (unit_mapping !! u = None ∧ is_inherited u = true
               ∧ suffix rt unit = inherited_text rt u)
            ∨ (unit_mapping !! u = None ∧ is_inherited u = false
               ∧ suffix rt unit = u)).
Proof.
  destruct unit as [[| c u] |]; [by left | | by left].
  right. exists (c :: u). split; [done |].
  unfold suffix, mapped_or_self.
  destruct (unit_mapping !! (c :: u)) as [m |]; [left; by exists m |].
  destruct (is_inherited (c :: u)); right; [left | right]; done.
Qed.
End names.

(** ** The registry cache *)

Section cache.
Context (rt : Runtime).

Lemma register_metric_cached s name help r :
  metrics s !! name = Some r → register_metric rt s name help = (s, None).
Proof.
  intros Hn. unfold register_metric, has_property. rewrite Hn.
  rewrite bool_decide_eq_true_2; [done |]. by eexists.
Qed.

Lemma register_metric_fresh s name help :
  metrics s !! name = None → is_inherited name = false →
  register_metric rt s name help
  = match gauge_throws rt name help with
    | Some e => (s, Some e)
    | None => (new_gauge s name help, None)
    end.
Proof.
  intros Hn Hi. unfold register_metric, has_property. rewrite Hi, Hn.
  rewrite bool_decide_eq_false_2; [done |]. by intros [? ?].
Qed.

(** The state after the registration part is the one before, or the one
    with the new gauge. *)
Lemma register_metric_state s name help :
  (register_metric rt s name help).1 = s
  ∨ (metrics s !! name = None
     ∧ (register_metric rt s name help).1 = new_gauge s name help).
Proof.
  unfold register_metric.
  destruct (has_property (metrics s) name) eqn:Hp; [by left |].
  destruct (gauge_throws rt name help); [by left |]. right.
  split; [| done]. apply orb_false_elim in Hp as [Hown _].
  apply bool_decide_eq_false in Hown.
  destruct (metrics s !! name) eqn:E; [| done]. destruct Hown. by eexists.
Qed.

Lemma cache_ok_initial : cache_ok initial.
Proof. split; cbn; [intros name r | intros [| r] g |]; done. Qed.

Lemma cache_ok_same s s' :
  metrics s' = metrics s → store s' = store s → registry s' = registry s →
  cache_ok s → cache_ok s'.
Proof.
  intros Hm Hs Hr [H1 H2 H3]. split; rewrite ?Hm, ?Hs, ?Hr; auto.
Qed.

Lemma new_gauge_cache_ok s name help :
  metrics s !! name = None → cache_ok s → cache_ok (new_gauge s name help).
Proof.
  intros Hn [H1 H2 H3].
  set (g0 := {| g_name := name; g_help := help; g_sets := [] |}).
  split; cbn.
  - intros name' r. rewrite lookup_insert. case_decide as Hd.
    + intros [= <-]. subst name'. exists g0. split; [| done].
      by apply list_lookup_middle.
    + intros Hr. destruct (H1 _ _ Hr) as (g & Hg & Hgn).
      exists g. split; [| done].
      rewrite lookup_app_l; [done |]. by eapply lookup_lt_Some.
  - intros r g Hg. apply lookup_snoc_Some in Hg as [[Hlt Hg] | [-> <-]].
    + rewrite lookup_insert_ne; [by apply H2 |].
      intros Heq. apply H2 in Hg. rewrite <- Heq in Hg. congruence.
    + cbn. apply lookup_insert_eq.
  - rewrite length_app. cbn. rewrite Nat.add_1_r, seq_S. by rewrite H3.
Qed.

Lemma register_metric_cache_ok s name help :
  cache_ok s → cache_ok (register_metric rt s name help).1.
Proof.
  intros Hok. destruct (register_metric_state s name help) as [-> | [Hn ->]];
    [done | by apply new_gauge_cache_ok].
Qed.

Lemma register_metric_consumption s name help :
  consumption (register_metric rt s name help).1 = consumption s
  ∧ consumed_counter (register_metric rt s name help).1 = consumed_counter s.
Proof.
  by destruct (register_metric_state s name help) as [-> | [_ ->]].
Qed.

(** A cached reference is never replaced. *)
Lemma register_metric_keeps s name help name' r :
  metrics s !! name' = Some r →
  metrics (register_metric rt s name help).1 !! name' = Some r.
Proof.
  intros Hr. destruct (register_metric_state s name help) as [-> | [Hn ->]];
    [done |].
  cbn. rewrite lookup_insert_ne; [done |]. intros <-. congruence.
Qed.

(** A gauge of the store is still there, as it was. *)
Lemma register_metric_store s name help r g :
  store s !! r = Some g → store (register_metric rt s name help).1 !! r = Some g.
Proof.
  intros Hg. destruct (register_metric_state s name help) as [-> | [_ ->]];
    [done |].
  cbn. rewrite lookup_app_l; [done |]. by eapply lookup_lt_Some.
Qed.

Lemma accrue_cache s key lbl mv time :
  metrics (accrue rt s key lbl mv time).1 = metrics s
  ∧ store (accrue rt s key lbl mv time).1 = store s
  ∧ registry (accrue rt s key lbl mv time).1 = registry s.
Proof. unfold accrue. by destruct (consumption s !! key). Qed.

Lemma set_metric_spec s name lbl mv r g :
  metrics s !! name = Some r → store s !! r = Some g →
  (set_metric rt s name lbl mv).2 = set_throws rt lbl mv
  ∧ metrics (set_metric rt s name lbl mv).1 = metrics s
  ∧ registry (set_metric rt s name lbl mv).1 = registry s
  ∧ consumption (set_metric rt s name lbl mv).1 = consumption s
  ∧ consumed_counter (set_metric rt s name lbl mv).1 = consumed_counter s
  ∧ length (store (set_metric rt s name lbl mv).1) = length (store s)
  ∧ store (set_metric rt s name lbl mv).1 !! r = Some (gauge_set g lbl mv)
  ∧ ∀ r', r' ≠ r → store (set_metric rt s name lbl mv).1 !! r' = store s !! r'.
Proof.
  intros Hm Hg. unfold set_metric. rewrite Hm. cbn. repeat split.
  - apply length_alter.
  - by rewrite list_lookup_alter_eq, Hg.
  - intros r' Hne. by apply list_lookup_alter_ne.
Qed.

Lemma set_metric_cache_ok s name lbl mv :
  cache_ok s → cache_ok (set_metric rt s name lbl mv).1.
Proof.
  intros [H1 H2 H3]. unfold set_metric.
  destruct (metrics s !! name) as [r |] eqn:Hm; [| by split].
  split; cbn.
  - intros name' r' Hr. destruct (H1 _ _ Hr) as (g & Hg & Hgn).
    destruct (decide (r = r')) as [-> | Hne].
    + exists (gauge_set g lbl mv). by rewrite list_lookup_alter_eq, Hg.
    + exists g. by rewrite list_lookup_alter_ne.
  - intros r' g. destruct (decide (r = r')) as [-> | Hne].
    + rewrite list_lookup_alter_eq.
      destruct (store s !! r') as [g0 |] eqn:Hg; [| done].
      intros [= <-]. cbn. by apply H2.
    + rewrite list_lookup_alter_ne by done. apply H2.
  - by rewrite length_alter.
Qed.

(** Gauges in a consistent state have pairwise distinct names. *)
Lemma cache_ok_NoDup s : cache_ok s → NoDup (g_name <$> store s).
Proof.
  intros [_ H2 _]. apply NoDup_alt. intros i j name.
  rewrite !list_lookup_fmap.
  destruct (store s !! i) as [gi |] eqn:Hi; [| done].
  destruct (store s !! j) as [gj |] eqn:Hj; [| done].
  cbn. intros [= Hni] [= Hnj].
  apply H2 in Hi, Hj. congruence.
Qed.
End cache.

(** ** The handler *)

Section handler.
Context (rt : Runtime).

Lemma and_then_goes_on x k : x.2 = None → and_then x k = k x.1.
Proof. destruct x as [s [e |]]; [done | by intros _]. Qed.

Lemma and_then_stops x k e : x.2 = Some e → and_then x k = x.
Proof. destruct x as [s [e' |]]; [by intros [= ->] | done]. Qed.

Lemma value_updated_of_steps s n v md time :
  value_updated rt s n v md time
  = match (value_updated_steps rt s n v md time).2 with
    | None => Ok (value_updated_steps rt s n v md time).1
    | Some e => Throw e
    end.
Proof.
  unfold value_updated. by destruct (value_updated_steps _ _ _ _ _ _) as [s' [e |]].
Qed.

Lemma steps_throw s n v md time e :
  coerce (newValue v) (m_unit md) = Throw e →
  value_updated_steps rt s n v md time = (s, Some e).
Proof. intros H. unfold value_updated_steps. by rewrite H. Qed.

(** Coercion throws a [TypeError], for [undefined] and [null] only. *)
Lemma coerce_throws p mu e :
  coerce p mu = Throw e ↔ e = TypeError ∧ (p = PUndefined ∨ p = PNull).
Proof.
  destruct p; cbn; split; try done; try (intros [= <-]; auto);
    try (intros [_ [H | H]]; done); by intros [-> _].
Qed.

Lemma accrue_same s s' key lbl mv time :
  consumption s = consumption s' →
  consumed_counter s = consumed_counter s' →
  consumption (accrue rt s key lbl mv time).1
  = consumption (accrue rt s' key lbl mv time).1
  ∧ consumed_counter (accrue rt s key lbl mv time).1
    = consumed_counter (accrue rt s' key lbl mv time).1
  ∧ (accrue rt s key lbl mv time).2 = (accrue rt s' key lbl mv time).2.
Proof.
  intros Hc Hk. unfold accrue. rewrite <- Hc, <- Hk.
  by destruct (consumption s !! key).
Qed.

(** A constructor call that throws ends the handler with nothing written. *)
Lemma steps_refused s n v md time unit mv e :
  coerce (newValue v) (m_unit md) = Ok (unit, mv) →
  metrics s !! metric_name rt (value_name v) (suffix rt unit) = None →
  gauge_throws rt (metric_name rt (value_name v) (suffix rt unit)) (m_label md)
  = Some e →
  value_updated_steps rt s n v md time = (s, Some e).
Proof.
  intros Hco Hn He. unfold value_updated_steps. rewrite Hco. cbv zeta.
  rewrite (register_metric_fresh rt s _ _ Hn (metric_name_not_inherited rt _ _)).
  by rewrite He.
Qed.

(** When the gauge is cached or can be created, the registration part
    returns, and the name is cached and points into the store. *)
Lemma register_metric_lookup s raw sfx help :
  cache_ok s → creatable rt s (metric_name rt raw sfx) help →
  (register_metric rt s (metric_name rt raw sfx) help).2 = None
  ∧ ∃ r g, metrics (register_metric rt s (metric_name rt raw sfx) help).1
             !! metric_name rt raw sfx = Some r
           ∧ store (register_metric rt s (metric_name rt raw sfx) help).1 !! r
             = Some g
           ∧ g_name g = metric_name rt raw sfx
           ∧ match metrics s !! metric_name rt raw sfx with
             | Some r0 => r = r0
                          ∧ (register_metric rt s (metric_name rt raw sfx) help).1 = s
             | None => r = length (store s)
                       ∧ g = {| g_name := metric_name rt raw sfx;
                                g_help := help; g_sets := [] |}
                       ∧ (register_metric rt s (metric_name rt raw sfx) help).1
                         = new_gauge s (metric_name rt raw sfx) help
             end.
Proof.
  intros Hok Hcr. set (name := metric_name rt raw sfx) in *.
  destruct (metrics s !! name) as [r0 |] eqn:Hm.
  - rewrite (register_metric_cached rt s name help r0 Hm). cbn.
    split; [done |]. destruct (ok_metrics _ Hok _ _ Hm) as (g & Hg & Hgn).
    exists r0, g. by repeat split.
  - destruct Hcr as [[r0 Hr0] | Hacc]; [congruence |].
    rewrite (register_metric_fresh rt s name help Hm
               (metric_name_not_inherited rt raw sfx)), Hacc. cbn.
    split; [done |].
    exists (length (store s)), {| g_name := name; g_help := help; g_sets := [] |}.
    split; [apply lookup_insert_eq |]. split; [by apply list_lookup_middle |].
    done.
Qed.

(** What one reaction to a coercible payload does to the whole state, when
    its gauge is cached or can be created. *)
Lemma steps_spec s n v md time unit mv :
  cache_ok s →
  coerce (newValue v) (m_unit md) = Ok (unit, mv) →
  creatable rt s (metric_name rt (value_name v) (suffix rt unit)) (m_label md) →
  let name := metric_name rt (value_name v) (suffix rt unit) in
  let s1 := (register_metric rt s name (m_label md)).1 in
  let st := value_updated_steps rt s n v md time in
  ∃ r g,
    metrics s1 !! name = Some r
    ∧ store s1 !! r = Some g
    ∧ g_name g = name
    ∧ metrics st.1 = metrics s1
    ∧ registry st.1 = registry s1
    ∧ length (store st.1) = length (store s1)
    ∧ consumption st.1 =
        (if decide (name = electric_w_consumed_watts)
         then consumption
                (accrue rt s (consumption_key n v) (labels_of n v) mv time).1
         else consumption s)
    ∧ consumed_counter st.1 =
        (if decide (name = electric_w_consumed_watts)
         then consumed_counter
                (accrue rt s (consumption_key n v) (labels_of n v) mv time).1
         else consumed_counter s)
    ∧ match accrual_throws rt s n v name mv time with
      | Some e => st.2 = Some e ∧ store st.1 = store s1
      | None =>
          st.2 = set_throws rt (labels_of n v) mv
          ∧ store st.1 !! r = Some (gauge_set g (labels_of n v) mv)
          ∧ ∀ r', r' ≠ r → store st.1 !! r' = store s1 !! r'
      end.
Proof.
  intros Hok Hco Hcr name s1 st.
  destruct (register_metric_lookup s (value_name v) (suffix rt unit) (m_label md)
              Hok Hcr) as (Hreg & r & g & Hr & Hg & Hgn & _).
  fold name in Hreg, Hr, Hg, Hgn. fold s1 in Hr, Hg.
  destruct (register_metric_consumption rt s name (m_label md)) as [Hc1 Hk1].
  fold s1 in Hc1, Hk1.
  set (acc := if decide (name = electric_w_consumed_watts)
              then accrue rt s1 (consumption_key n v) (labels_of n v) mv time
              else (s1, None)).
  assert (Hst : st = and_then acc
                       (λ s2, set_metric rt s2 name (labels_of n v) mv)).
  { unfold st, value_updated_steps. rewrite Hco. cbv zeta. fold name.
    by rewrite (and_then_goes_on _ _ Hreg). }
  assert (Hacc : metrics acc.1 = metrics s1 ∧ store acc.1 = store s1
                 ∧ registry acc.1 = registry s1
                 ∧ consumption acc.1 =
                     (if decide (name = electric_w_consumed_watts)
                      then consumption
                             (accrue rt s (consumption_key n v) (labels_of n v)
                                mv time).1
                      else consumption s)
                 ∧ consumed_counter acc.1 =
                     (if decide (name = electric_w_consumed_watts)
                      then consumed_counter
                             (accrue rt s (consumption_key n v) (labels_of n v)
                                mv time).1
                      else consumed_counter s)
                 ∧ acc.2 = accrual_throws rt s n v name mv time).
  { unfold acc, accrual_throws. case_decide; [| cbn [fst snd]; by rewrite Hc1, Hk1].
    destruct (accrue_cache rt s1 (consumption_key n v) (labels_of n v) mv time)
      as (-> & -> & ->).
    destruct (accrue_same s1 s (consumption_key n v) (labels_of n v) mv time
                Hc1 Hk1) as (-> & -> & ->). done. }
  destruct Hacc as (Hm2 & Hs2 & Hr2 & Hc2 & Hk2 & Hth).
  exists r, g. do 3 (split; [done |]).
  destruct (accrual_throws rt s n v name mv time) as [e |] eqn:Hat.
  - rewrite (and_then_stops _ _ e Hth) in Hst. rewrite Hst.
    rewrite Hm2, Hs2, Hr2, Hc2, Hk2. by repeat split.
  - rewrite (and_then_goes_on _ _ Hth) in Hst. rewrite Hst.
    destruct (set_metric_spec rt acc.1 name (labels_of n v) mv r g)
      as (Hset & Hm' & Hr' & Hc' & Hk' & Hlen & Hgr & Hother).
    { by rewrite Hm2. } { by rewrite Hs2. }
    rewrite Hm', Hr', Hlen, Hc', Hk', Hm2, Hr2, Hs2, Hc2, Hk2.
    do 5 (split; [done |]). split; [done |]. split; [done |].
    intros r' Hne. by rewrite Hother, Hs2.
Qed.

(** The state after a reaction is consistent. *)
Lemma steps_cache_ok s n v md time :
  cache_ok s → cache_ok (value_updated_steps rt s n v md time).1.
Proof.
  intros Hok. unfold value_updated_steps.
  destruct (coerce (newValue v) (m_unit md)) as [[unit mv] | e]; [| done].
  cbv zeta.
  pose proof (register_metric_cache_ok rt s
                (metric_name rt (value_name v) (suffix rt unit)) (m_label md) Hok)
    as Hok1.
  destruct (register_metric rt s _ (m_label md)) as [s1 [e |]]; [done |].
  cbn [and_then fst] in *.
  assert (Hok2 : cache_ok
                   (if decide (metric_name rt (value_name v) (suffix rt unit)
                               = electric_w_consumed_watts)
                    then accrue rt s1 (consumption_key n v) (labels_of n v) mv time
                    else (s1, None)).1).
  { case_decide; [| done].
    destruct (accrue_cache rt s1 (consumption_key n v) (labels_of n v) mv time)
      as (Hm & Hs & Hr).
    by apply (cache_ok_same s1). }
  destruct (if decide _ then _ else _) as [s2 [e |]]; [done |].
  cbn [and_then fst] in *. by apply set_metric_cache_ok.
Qed.

Lemma react_cache_ok s u : cache_ok s → cache_ok (react rt s u).
Proof. apply steps_cache_ok. Qed.

Lemma run_cache_ok s us : cache_ok s → cache_ok (run rt s us).
Proof.
  revert s. induction us as [| u us IH]; intros s Hok; [done |].
  cbn. apply IH. by apply react_cache_ok.
Qed.

(** A reaction either has its gauge at hand or stops with the state as it
    was. *)
Lemma steps_cases s n v md time :
  match coerce (newValue v) (m_unit md) with
  | Throw e => value_updated_steps rt s n v md time = (s, Some e)
  | Ok (unit, mv) =>
      creatable rt s (metric_name rt (value_name v) (suffix rt unit)) (m_label md)
      ∨ ∃ e, metrics s !! metric_name rt (value_name v) (suffix rt unit) = None
             ∧ gauge_throws rt (metric_name rt (value_name v) (suffix rt unit))
                 (m_label md) = Some e
             ∧ value_updated_steps rt s n v md time = (s, Some e)
  end.
Proof.
  destruct (coerce (newValue v) (m_unit md)) as [[unit mv] | e] eqn:Hco;
    [| by apply steps_throw].
  destruct (metrics s !! metric_name rt (value_name v) (suffix rt unit))
    as [r |] eqn:Hm; [left; left; by eexists |].
  destruct (gauge_throws rt (metric_name rt (value_name v) (suffix rt unit))
              (m_label md)) as [e |] eqn:He; [| left; by right].
  right. exists e. do 2 (split; [done |]). by eapply steps_refused.
Qed.

Lemma react_keeps s u name r :
  cache_ok s → metrics s !! name = Some r →
  metrics (react rt s u) !! name = Some r.
Proof.
  intros Hok Hr. unfold react.
  pose proof (steps_cases s (u_node u) (u_value u) (u_meta u) (u_time u)) as Hc.
  destruct (coerce (newValue (u_value u)) (m_unit (u_meta u)))
    as [[unit mv] | e] eqn:Hco; [| by rewrite Hc].
  destruct Hc as [Hcr | (e & _ & _ & ->)]; [| done].
  destruct (steps_spec s (u_node u) (u_value u) (u_meta u) (u_time u) unit mv
              Hok Hco Hcr) as (r0 & g & _ & _ & _ & -> & _).
  by apply register_metric_keeps.
Qed.

Lemma run_keeps s us name r :
  cache_ok s → metrics s !! name = Some r →
  metrics (run rt s us) !! name = Some r.
Proof.
  revert s. induction us as [| u us IH]; intros s Hok Hr; [done |].
  cbn. apply IH; [by apply react_cache_ok | by apply react_keeps].
Qed.

Lemma value_updated_handled s n v md time unit mv :
  cache_ok s →
  coerce (newValue v) (m_unit md) = Ok (unit, mv) →
  reaches_set rt s n v md time unit mv →
  handled rt s n v md time (value_name v) unit mv.
Proof.
  intros Hok Hco [Hcr Hacc].
  destruct (steps_spec s n v md time unit mv Hok Hco Hcr)
    as (r & g & Hr & Hg & Hgn & Hm & _ & _ & _ & _ & Hlast).
  rewrite Hacc in Hlast. destruct Hlast as (Hth & Hg' & _).
  exists r, (gauge_set g (labels_of n v) mv). unfold react, at_time. cbn.
  rewrite Hm. do 3 (split; [done |]). split; [by exists (g_sets g) |].
  rewrite value_updated_of_steps, Hth.
  by destruct (set_throws rt (labels_of n v) mv).
Qed.

(** How the handler ends: with the exception of coercion, or with that of
    the first call into prom-client that throws. *)
Lemma value_updated_outcome s n v md time :
  cache_ok s →
  value_updated rt s n v md time
  = match coerce (newValue v) (m_unit md) with
    | Throw e => Throw e
    | Ok (unit, mv) =>
        let name := metric_name rt (value_name v) (suffix rt unit) in
        match metrics s !! name, gauge_throws rt name (m_label md) with
        | None, Some e => Throw e
        | _, _ =>
            match accrual_throws rt s n v name mv time with
            | Some e => Throw e
            | None =>
                match set_throws rt (labels_of n v) mv with
                | Some e => Throw e
                | None => Ok (value_updated_steps rt s n v md time).1
                end
            end
        end
    end.
Proof.
  intros Hok. rewrite value_updated_of_steps.
  pose proof (steps_cases s n v md time) as Hc.
  destruct (coerce (newValue v) (m_unit md)) as [[unit mv] | e] eqn:Hco;
    [| by rewrite Hc].
  cbv zeta. destruct Hc as [Hcr | (e & Hn & He & Hst)].
  - destruct (steps_spec s n v md time unit mv Hok Hco Hcr)
      as (r & g & _ & _ & _ & _ & _ & _ & _ & _ & Hlast).
    assert (Hsel : match metrics s !! metric_name rt (value_name v) (suffix rt unit),
                         gauge_throws rt (metric_name rt (value_name v)
                                            (suffix rt unit)) (m_label md)
                   with
                   | None, Some e => False
                   | _, _ => True
                   end).
    { destruct Hcr as [[r0 ->] | ->]; [done |]. by destruct (metrics s !! _). }
    set (name := metric_name rt (value_name v) (suffix rt unit)) in *.
    destruct (metrics s !! name), (gauge_throws rt name (m_label md)); try done;
      (destruct (accrual_throws rt s n v name mv time);
       [by destruct Hlast as [-> _] | destruct Hlast as (-> & _); done]).
  - by rewrite Hn, He, Hst.
Qed.
End handler.

(** ** Energy accrual *)

Section accrual.
Context (rt : Runtime).

Lemma accrue_first s key lbl mv time :
  consumption s !! key = None →
  consumption (accrue rt s key lbl mv time).1
  = <[key := {| last := time; joules := Fin 0 |}]> (consumption s)
  ∧ consumed_counter (accrue rt s key lbl mv time).1 = consumed_counter s
  ∧ (accrue rt s key lbl mv time).2 = None.
Proof. intros H. unfold accrue. by rewrite H. Qed.

Lemma accrue_next s key lbl mv time r :
  consumption s !! key = Some r →
  consumption (accrue rt s key lbl mv time).1
  = <[key := {| last := time;
                joules := num_add (joules r) (energy mv time (last r)) |}]>
      (consumption s)
  ∧ consumed_counter (accrue rt s key lbl mv time).1
    = consumed_counter s ++ [(lbl, energy mv time (last r))]
  ∧ (accrue rt s key lbl mv time).2 = inc_throws rt lbl (energy mv time (last r)).
Proof. intros H. unfold accrue. by rewrite H. Qed.

(** An accrual always leaves a trace: a new entry or a new [inc] call. *)
Lemma accrue_changes s key lbl mv time :
  (consumption (accrue rt s key lbl mv time).1,
   consumed_counter (accrue rt s key lbl mv time).1)
  ≠ (consumption s, consumed_counter s).
Proof.
  destruct (consumption s !! key) as [r |] eqn:Hk.
  - destruct (accrue_next s key lbl mv time r Hk) as (_ & -> & _).
    intros [= _ Hc]. apply (f_equal length) in Hc.
    rewrite length_app in Hc. cbn in Hc. lia.
  - destruct (accrue_first s key lbl mv time Hk) as (-> & _ & _).
    intros [= Hc _]. apply (f_equal (λ m, m !! key)) in Hc.
    rewrite lookup_insert_eq in Hc. congruence.
Qed.

Lemma is_routed_coerced u unit mv :
  coerce (newValue (u_value u)) (m_unit (u_meta u)) = Ok (unit, mv) →
  is_routed rt u
  = bool_decide (metric_name rt (value_name (u_value u)) (suffix rt unit)
                 = electric_w_consumed_watts).
Proof.
  intros Hco. unfold is_routed, identifier_of. rewrite Hco.
  apply bool_decide_ext. split; [apply (inj Some) | by intros ->].
Qed.

(** The accumulators and the counter after one reaction, case by case. *)
Lemma react_accrual s u :
  cache_ok s →
  match accrues rt s u, consumption s !! consumption_key (u_node u) (u_value u) with
  | false, _ =>
      consumption (react rt s u) = consumption s
      ∧ consumed_counter (react rt s u) = consumed_counter s
  | true, None =>
      consumption (react rt s u)
      = <[consumption_key (u_node u) (u_value u)
          := {| last := u_time u; joules := Fin 0 |}]> (consumption s)
      ∧ consumed_counter (react rt s u) = consumed_counter s
  | true, Some r =>
      ∃ unit mv,
        coerce (newValue (u_value u)) (m_unit (u_meta u)) = Ok (unit, mv)
        ∧ metric_name rt (value_name (u_value u)) (suffix rt unit)
          = electric_w_consumed_watts
        ∧ consumption (react rt s u)
          = <[consumption_key (u_node u) (u_value u)
              := {| last := u_time u;
                    joules := num_add (joules r)
                                (energy mv (u_time u) (last r)) |}]>
              (consumption s)
        ∧ consumed_counter (react rt s u)
          = consumed_counter s
            ++ [(labels_of (u_node u) (u_value u), energy mv (u_time u) (last r))]
  end.
Proof.
  intros Hok. unfold react, accrues.
  pose proof (steps_cases rt s (u_node u) (u_value u) (u_meta u) (u_time u)) as Hc.
  destruct (coerce (newValue (u_value u)) (m_unit (u_meta u)))
    as [[unit mv] | e] eqn:Hco.
  2: { unfold is_routed, identifier_of. rewrite Hco, Hc.
       by rewrite bool_decide_eq_false_2. }
  rewrite (is_routed_coerced u unit mv Hco).
  set (name := metric_name rt (value_name (u_value u)) (suffix rt unit)) in *.
  case_bool_decide as Hname; cbn [andb].
  - rewrite <- Hname.
    destruct Hc as [Hcr | (e & Hn & He & ->)].
    + assert (Hb : bool_decide (is_Some (metrics s !! name))
                   || bool_decide (gauge_throws rt name (m_label (u_meta u)) = None)
                   = true).
      { destruct Hcr as [H | H]; [rewrite (bool_decide_eq_true_2 _ H) |
                                  rewrite (bool_decide_eq_true_2 _ H)];
          [done | apply orb_true_r]. }
      rewrite Hb.
      destruct (steps_spec rt s (u_node u) (u_value u) (u_meta u) (u_time u)
                  unit mv Hok Hco Hcr)
        as (r & g & _ & _ & _ & _ & _ & _ & Hcons & Hcnt & _).
      fold name in Hcons, Hcnt.
      rewrite decide_True in Hcons by done. rewrite decide_True in Hcnt by done.
      rewrite Hcons, Hcnt.
      destruct (consumption s !! consumption_key (u_node u) (u_value u))
        as [r0 |] eqn:Hk.
      * exists unit, mv. do 2 (split; [done |]).
        by destruct (accrue_next s _ (labels_of (u_node u) (u_value u)) mv
                       (u_time u) r0 Hk) as (-> & -> & _).
      * by destruct (accrue_first s _ (labels_of (u_node u) (u_value u)) mv
                       (u_time u) Hk) as (-> & -> & _).
    + rewrite Hn, He. rewrite bool_decide_eq_false_2 by (by intros [? ?]).
      by rewrite bool_decide_eq_false_2.
  - destruct Hc as [Hcr | (e & Hn & He & ->)]; [| done].
    destruct (steps_spec rt s (u_node u) (u_value u) (u_meta u) (u_time u)
                unit mv Hok Hco Hcr)
      as (r & g & _ & _ & _ & _ & _ & _ & Hcons & Hcnt & _).
    fold name in Hcons, Hcnt.
    rewrite decide_False in Hcons by done. rewrite decide_False in Hcnt by done.
    done.
Qed.

(** A reaction that gets to the accrual is routed. *)
Lemma accrues_routed s u : accrues rt s u = true → is_routed rt u = true.
Proof. unfold accrues. by intros [H _]%andb_prop. Qed.

Lemma consumption_key_endpoint n v v' :
  endpoint v' = endpoint v → consumption_key n v' = consumption_key n v.
Proof. intros H. unfold consumption_key. by rewrite H. Qed.

Lemma energy_nonneg p time before :
  (0 <= p)%Q → (before <= time)%Q →
  ∃ e, energy (Some (Fin p)) time before = Fin e ∧ (0 <= e)%Q.
Proof.
  intros Hp Ht. eexists. split; [reflexivity |].
  apply Qmult_le_0_compat; [done |].
  apply Qle_shift_div_l; [reflexivity | lra].
Qed.

Lemma accumulators_before_weaken lo lo' s :
  (lo <= lo')%Q → accumulators_before lo s → accumulators_before lo' s.
Proof.
  intros Hle Hacc k r Hk. destruct (Hacc k r Hk) as [Hl Hj].
  split; [lra | done].
Qed.

Lemma num_le_trans x y z : num_le x y → num_le y z → num_le x z.
Proof. destruct x, y, z; cbn; try done. intros; lra. Qed.

(** A routed sample that is fine carries a non-negative number. *)
Lemma power_sample_number u unit mv :
  power_sample_ok rt u →
  coerce (newValue (u_value u)) (m_unit (u_meta u)) = Ok (unit, mv) →
  metric_name rt (value_name (u_value u)) (suffix rt unit)
  = electric_w_consumed_watts →
  ∃ p, mv = Some (Fin p) ∧ (0 <= p)%Q.
Proof. unfold power_sample_ok. intros Hps Hco. rewrite Hco in Hps. exact Hps. Qed.

(** One reaction: no accumulator shrinks, and all stay finite. *)
Lemma react_joules s u lo :
  cache_ok s → accumulators_before lo s → (lo <= u_time u)%Q →
  power_sample_ok rt u →
  accumulators_before (u_time u) (react rt s u)
  ∧ ∀ k r, consumption s !! k = Some r →
           ∃ r', consumption (react rt s u) !! k = Some r'
                 ∧ num_le (joules r) (joules r').
Proof.
  intros Hok Hacc Hlo Hps.
  assert (Hsame : accumulators_before (u_time u) s
                  ∧ ∀ k r, consumption s !! k = Some r →
                           ∃ r', consumption s !! k = Some r'
                                 ∧ num_le (joules r) (joules r')).
  { split; [by eapply accumulators_before_weaken |].
    intros k r Hk. exists r. split; [done |].
    destruct (Hacc k r Hk) as [_ [j ->]]. cbn. lra. }
  pose proof (react_accrual s u Hok) as Hstep.
  destruct (accrues rt s u);
    [| destruct Hstep as [Hc _]; unfold accumulators_before; by rewrite Hc].
  set (key := consumption_key (u_node u) (u_value u)) in *.
  destruct (consumption s !! key) as [r0 |] eqn:Hk0.
  - destruct Hstep as (unit & mv & Hco & Hname & Hc & _).
    destruct (power_sample_number u unit mv Hps Hco Hname) as (p & -> & Hp).
    destruct (Hacc key r0 Hk0) as [Hl0 [j0 Hj0]].
    destruct (energy_nonneg p (u_time u) (last r0) Hp) as (e & He & Hepos);
      [lra |].
    unfold accumulators_before. rewrite Hc, He, Hj0. cbn [num_add]. split.
    + intros k r. rewrite lookup_insert. case_decide.
      * intros [= <-]. cbn. split; [lra | by eexists].
      * intros Hk. destruct (Hacc k r Hk) as [Hl Hj]. split; [lra | done].
    + intros k r Hk. rewrite lookup_insert. case_decide as Hd.
      * subst k. rewrite Hk0 in Hk. injection Hk as <-.
        eexists. split; [done |]. rewrite Hj0. cbn. lra.
      * exists r. split; [done |].
        destruct (Hacc k r Hk) as [_ [j ->]]. cbn. lra.
  - destruct Hstep as [Hc _]. unfold accumulators_before. rewrite Hc. split.
    + intros k r. rewrite lookup_insert. case_decide.
      * intros [= <-]. cbn. split; [lra | by eexists].
      * intros Hk. destruct (Hacc k r Hk) as [Hl Hj]. split; [lra | done].
    + intros k r Hk. rewrite lookup_insert. case_decide as Hd.
      * subst k. congruence.
      * exists r. split; [done |].
        destruct (Hacc k r Hk) as [_ [j ->]]. cbn. lra.
Qed.

Lemma ascending_app lo us1 us2 :
  ascending lo (us1 ++ us2) ↔
  ascending lo us1 ∧ ascending (final_time lo us1) us2.
Proof.
  revert lo. induction us1 as [| u us1 IH]; intros lo; cbn; [tauto |].
  rewrite IH. unfold final_time. tauto.
Qed.

(** Over a run whose clock never goes back and whose routed samples are
    non-negative numbers, no accumulator shrinks. *)
Lemma run_joules us :
  ∀ s lo, cache_ok s → accumulators_before lo s → ascending lo us →
          Forall (power_sample_ok rt) us →
          accumulators_before (final_time lo us) (run rt s us)
          ∧ ∀ k r, consumption s !! k = Some r →
                   ∃ r', consumption (run rt s us) !! k = Some r'
                         ∧ num_le (joules r) (joules r').
Proof.
  induction us as [| u us IH]; intros s lo Hok Hacc Hasc Hall.
  - split; [done |]. intros k r Hk. exists r. split; [done |].
    destruct (Hacc k r Hk) as [_ [j ->]]. cbn. lra.
  - destruct Hasc as [Hlo Hasc]. apply Forall_cons in Hall as [Hu Hall].
    destruct (react_joules s u lo Hok Hacc Hlo Hu) as [Hacc1 Hmono1].
    destruct (IH (react rt s u) (u_time u) (react_cache_ok rt s u Hok)
                Hacc1 Hasc Hall) as [Hacc2 Hmono2].
    split; [exact Hacc2 |].
    intros k r Hk. destruct (Hmono1 k r Hk) as (r1 & Hk1 & Hle1).
    destruct (Hmono2 k r1 Hk1) as (r2 & Hk2 & Hle2).
    exists r2. split; [exact Hk2 | by eapply num_le_trans].
Qed.

(** One reaction reports no negative delta. *)
Lemma react_counter s u lo :
  cache_ok s → accumulators_before lo s → (lo <= u_time u)%Q →
  power_sample_ok rt u →
  Forall nonneg_delta (consumed_counter s) →
  Forall nonneg_delta (consumed_counter (react rt s u)).
Proof.
  intros Hok Hacc Hlo Hps Hall.
  pose proof (react_accrual s u Hok) as Hstep.
  destruct (accrues rt s u); [| destruct Hstep as [_ Hk]; by rewrite Hk].
  destruct (consumption s !! consumption_key (u_node u) (u_value u))
    as [r0 |] eqn:Hk0; [| destruct Hstep as [_ Hk]; by rewrite Hk].
  destruct Hstep as (unit & mv & Hco & Hname & _ & Hk). rewrite Hk.
  destruct (power_sample_number u unit mv Hps Hco Hname) as (p & -> & Hp).
  destruct (Hacc _ r0 Hk0) as [Hl0 _].
  destruct (energy_nonneg p (u_time u) (last r0) Hp) as (e & He & Hepos);
    [lra |].
  apply Forall_app. split; [done |].
  apply Forall_singleton. unfold nonneg_delta. cbn [snd]. by rewrite He.
Qed.

Lemma run_counter us :
  ∀ s lo, cache_ok s → accumulators_before lo s → ascending lo us →
          Forall (power_sample_ok rt) us →
          Forall nonneg_delta (consumed_counter s) →
          Forall nonneg_delta (consumed_counter (run rt s us)).
Proof.
  induction us as [| u us IH]; intros s lo Hok Hacc Hasc Hall Hc; [done |].
  destruct Hasc as [Hlo Hasc]. apply Forall_cons in Hall as [Hu Hall].
  destruct (react_joules s u lo Hok Hacc Hlo Hu) as [Hacc1 _].
  apply (IH (react rt s u) (u_time u)); try done.
  - by apply react_cache_ok.
  - by eapply react_counter.
Qed.
End accrual.

(** ** Reactions that get to the gauge *)

Section reached.
Context (rt : Runtime).

(** With the gauge at hand the handler ends as the accrual and then [set]
    end. *)
Lemma value_updated_reached s n v md time unit mv :
  cache_ok s →
  coerce (newValue v) (m_unit md) = Ok (unit, mv) →
  creatable rt s (metric_name rt (value_name v) (suffix rt unit)) (m_label md) →
  value_updated rt s n v md time
  = match accrual_throws rt s n v
            (metric_name rt (value_name v) (suffix rt unit)) mv time with
    | Some e => Throw e
    | None =>
        match set_throws rt (labels_of n v) mv with
        | Some e => Throw e
        | None => Ok (react rt s (at_time n v md time))
        end
    end.
Proof.
  intros Hok Hco Hcr. rewrite (value_updated_outcome rt s n v md time Hok), Hco.
  cbv zeta. set (name := metric_name rt (value_name v) (suffix rt unit)) in *.
  destruct Hcr as [[r ->] | ->]; [done |]. by destruct (metrics s !! name).
Qed.

(** A reaction to a payload that can be coerced ends with the first
    exception of a call into prom-client, or returns. *)
Lemma value_updated_first_exception s n v md time unit mv :
  cache_ok s →
  coerce (newValue v) (m_unit md) = Ok (unit, mv) →
  value_updated rt s n v md time
  = match first_exception rt s n v md time unit mv with
    | Some e => Throw e
    | None => Ok (react rt s (at_time n v md time))
    end.
Proof.
  intros Hok Hco.
  rewrite (value_updated_outcome rt s n v md time Hok), Hco. cbv zeta.
  unfold first_exception.
  set (name := metric_name rt (value_name v) (suffix rt unit)).
  destruct (metrics s !! name), (gauge_throws rt name (m_label md));
    try done;
    destruct (accrual_throws rt s n v name mv time); try done;
    by destruct (set_throws rt (labels_of n v) mv).
Qed.

(** A reaction that stops at the constructor leaves the state as it was. *)
Lemma react_refused s n v md time unit mv :
  coerce (newValue v) (m_unit md) = Ok (unit, mv) →
  ¬ creatable rt s (metric_name rt (value_name v) (suffix rt unit)) (m_label md) →
  react rt s (at_time n v md time) = s.
Proof.
  intros Hco Hncr. pose proof (steps_cases rt s n v md time) as Hc.
  rewrite Hco in Hc. destruct Hc as [Hcr | (e & _ & _ & Hst)]; [done |].
  unfold react, at_time. cbn [u_node u_value u_meta u_time]. by rewrite Hst.
Qed.

(** After such a reaction the identifier is cached, under the reference it
    had if it had one. *)
Lemma react_cached s n v md time unit mv :
  cache_ok s →
  coerce (newValue v) (m_unit md) = Ok (unit, mv) →
  creatable rt s (metric_name rt (value_name v) (suffix rt unit)) (m_label md) →
  ∃ r g, metrics (react rt s (at_time n v md time))
           !! metric_name rt (value_name v) (suffix rt unit) = Some r
         ∧ store (react rt s (at_time n v md time)) !! r = Some g
         ∧ g_name g = metric_name rt (value_name v) (suffix rt unit).
Proof.
  intros Hok Hco Hcr.
  destruct (steps_spec rt s n v md time unit mv Hok Hco Hcr)
    as (r & g & Hr & _ & _ & Hm & _).
  pose proof (react_cache_ok rt s (at_time n v md time) Hok) as Hok'.
  assert (Hr' : metrics (react rt s (at_time n v md time))
                  !! metric_name rt (value_name v) (suffix rt unit) = Some r).
  { unfold react, at_time. cbn. by rewrite Hm. }
  destruct (ok_metrics _ Hok' _ _ Hr') as (g' & Hg' & Hgn').
  by exists r, g'.
Qed.

(** Accumulators and counter after a reaction that gets to the gauge. *)
Lemma react_consumption s n v md time unit mv :
  cache_ok s →
  coerce (newValue v) (m_unit md) = Ok (unit, mv) →
  creatable rt s (metric_name rt (value_name v) (suffix rt unit)) (m_label md) →
  (metric_name rt (value_name v) (suffix rt unit) = electric_w_consumed_watts →
   consumption (react rt s (at_time n v md time))
   = consumption (accrue rt s (consumption_key n v) (labels_of n v) mv time).1
   ∧ consumed_counter (react rt s (at_time n v md time))
     = consumed_counter
         (accrue rt s (consumption_key n v) (labels_of n v) mv time).1)
  ∧ (metric_name rt (value_name v) (suffix rt unit) ≠ electric_w_consumed_watts →
     consumption (react rt s (at_time n v md time)) = consumption s
     ∧ consumed_counter (react rt s (at_time n v md time)) = consumed_counter s).
Proof.
  intros Hok Hco Hcr.
  destruct (steps_spec rt s n v md time unit mv Hok Hco Hcr)
    as (r & g & _ & _ & _ & _ & _ & _ & Hc & Hk & _).
  unfold react, at_time. cbn [u_node u_value u_meta u_time].
  split; intros Hname.
  - rewrite decide_True in Hc by done. rewrite decide_True in Hk by done. done.
  - rewrite decide_False in Hc by done. rewrite decide_False in Hk by done. done.
Qed.

(** When no call into prom-client throws, every reaction to a payload that
    can be coerced gets to line 127 and returns. *)
Lemma never_throws_returns s n v md time unit mv :
  never_throws rt → cache_ok s →
  coerce (newValue v) (m_unit md) = Ok (unit, mv) →
  reaches_set rt s n v md time unit mv
  ∧ value_updated rt s n v md time = Ok (react rt s (at_time n v md time)).
Proof.
  intros (Hgauge & Hinc & Hset) Hok Hco.
  assert (Hcr : creatable rt s (metric_name rt (value_name v) (suffix rt unit))
                  (m_label md)) by (right; apply Hgauge).
  assert (Hacc : accrual_throws rt s n v
                   (metric_name rt (value_name v) (suffix rt unit)) mv time
                 = None).
  { unfold accrual_throws, accrue. case_decide; [| done].
    destruct (consumption s !! consumption_key n v); [apply Hinc | done]. }
  split; [by split |].
  by rewrite (value_updated_reached s n v md time unit mv Hok Hco Hcr), Hacc, Hset.
Qed.
End reached.

(** * The specified properties *)

(** C1, amended: for a key with no accumulator yet, the first routed sample
    creates the accumulator [{last: time, joules: 0}] and calls [inc] not at
    all; the second routed sample reports, as its one [inc] call, the power
    of that SECOND (current) sample multiplied by the seconds elapsed since
    the first. This is what the handler writes and passes whatever
    prom-client does with it, provided the gauge of the power metric is
    cached or can be created; the first reaction ends as its [set] call
    ends, the second as its [inc] call and then its [set] call end. *)
Theorem two_sample_accrual (rt : Runtime) (us : list update) (n : node)
    (v1 v2 : value_event) (md1 md2 : metadata) (t1 t2 : Q)
    (unit1 unit2 : option jsstring) (mv1 mv2 : option number) :
  coerce (newValue v1) (m_unit md1) = Ok (unit1, mv1) →
  coerce (newValue v2) (m_unit md2) = Ok (unit2, mv2) →
  metric_name rt (value_name v1) (suffix rt unit1) = electric_w_consumed_watts →
  metric_name rt (value_name v2) (suffix rt unit2) = electric_w_consumed_watts →
  endpoint v2 = endpoint v1 →
  consumption (run rt initial us) !! consumption_key n v1 = None →
  creatable rt (run rt initial us) electric_w_consumed_watts (m_label md1) →
  let s1 := react rt (run rt initial us) (at_time n v1 md1 t1) in
  let s2 := react rt s1 (at_time n v2 md2 t2) in
  let delta := num_mul (to_number mv2) (Fin ((t2 - t1) / 1000)) in
  value_updated rt (run rt initial us) n v1 md1 t1
  = match set_throws rt (labels_of n v1) mv1 with
    | Some e => Throw e
    | None => Ok s1
    end
  ∧ consumption s1 !! consumption_key n v1
    = Some {| last := t1; joules := Fin 0 |}
  ∧ consumed_counter s1 = consumed_counter (run rt initial us)
  ∧ value_updated rt s1 n v2 md2 t2
    = match inc_throws rt (labels_of n v2) delta with
      | Some e => Throw e
      | None =>
          match set_throws rt (labels_of n v2) mv2 with
          | Some e => Throw e
          | None => Ok s2
          end
      end
  ∧ consumed_counter s2 = consumed_counter s1 ++ [(labels_of n v2, delta)]
  ∧ consumption s2 !! consumption_key n v1
    = Some {| last := t2; joules := num_add (Fin 0) delta |}.
Proof.
  intros Hco1 Hco2 Hn1 Hn2 Hend Hnone Hcr s1 s2 delta.
  pose proof (run_cache_ok rt initial us (cache_ok_initial)) as Hok.
  pose proof (react_cache_ok rt _ (at_time n v1 md1 t1) Hok) as Hok1. fold s1 in Hok1.
  assert (Hcr1 : creatable rt (run rt initial us)
                   (metric_name rt (value_name v1) (suffix rt unit1)) (m_label md1))
    by by rewrite Hn1.
  destruct (accrue_first rt (run rt initial us) (consumption_key n v1)
              (labels_of n v1) mv1 t1 Hnone) as (Hc1' & Hk1' & Hth1).
  destruct (react_consumption rt _ n v1 md1 t1 unit1 mv1 Hok Hco1 Hcr1)
    as [Hacc1 _]. destruct (Hacc1 Hn1) as [Hc1 Hk1]. fold s1 in Hc1, Hk1.
  rewrite Hc1' in Hc1. rewrite Hk1' in Hk1.
  assert (Hr1 : consumption s1 !! consumption_key n v2
                = Some {| last := t1; joules := Fin 0 |}).
  { rewrite Hc1, (consumption_key_endpoint n v1 v2 Hend). apply lookup_insert_eq. }
  assert (Hcr2 : creatable rt s1
                   (metric_name rt (value_name v2) (suffix rt unit2)) (m_label md2)).
  { left. rewrite Hn2, <- Hn1.
    destruct (react_cached rt _ n v1 md1 t1 unit1 mv1 Hok Hco1 Hcr1)
      as (r & g & Hr & _). by exists r. }
  destruct (accrue_next rt s1 (consumption_key n v2) (labels_of n v2) mv2 t2 _ Hr1)
    as (Hc2' & Hk2' & Hth2).
  destruct (react_consumption rt s1 n v2 md2 t2 unit2 mv2 Hok1 Hco2 Hcr2)
    as [Hacc2 _]. destruct (Hacc2 Hn2) as [Hc2 Hk2]. fold s2 in Hc2, Hk2.
  rewrite Hc2' in Hc2. rewrite Hk2' in Hk2.
  rewrite (consumption_key_endpoint n v1 v2 Hend) in Hr1, Hc2.
  split.
  { rewrite (value_updated_reached rt _ n v1 md1 t1 unit1 mv1 Hok Hco1 Hcr1).
    unfold accrual_throws. rewrite decide_True by done. by rewrite Hth1. }
  do 2 (split; [done |]). split.
  { rewrite (value_updated_reached rt s1 n v2 md2 t2 unit2 mv2 Hok1 Hco2 Hcr2).
    unfold accrual_throws. rewrite decide_True by done. by rewrite Hth2. }
  split; [done |]. rewrite Hc2. apply lookup_insert_eq.
Qed.

Lemma two_sample_accrual_witness :
  ∃ s1 s2 d,
    value_updated ascii_runtime (run ascii_runtime initial []) node7
      (power 10) watts 0 = Ok s1
    ∧ consumption s1 !! consumption_key node7 (power 10)
      = Some {| last := 0; joules := Fin 0 |}
    ∧ consumed_counter s1 = consumed_counter (run ascii_runtime initial [])
    ∧ value_updated ascii_runtime s1 node7 (power 20) watts 5000 = Ok s2
    ∧ consumed_counter s2
      = consumed_counter s1 ++ [(labels_of node7 (power 20), d)]
    ∧ d = num_mul (Fin 20) (Fin ((5000 - 0) / 1000))
    ∧ consumption s2 !! consumption_key node7 (power 10)
      = Some {| last := 5000; joules := num_add (Fin 0) d |}.
Proof.
  destruct (two_sample_accrual ascii_runtime [] node7 (power 10) (power 20)
              watts watts 0 5000 (Some (lit "W")) (Some (lit "W"))
              (Some (Fin 10)) (Some (Fin 20)))
    as (H1 & H2 & H3 & H4 & H5 & H6);
    [vm_compute; reflexivity .. | right; vm_compute; reflexivity |].
  eexists _, _, _. split; [exact H1 |]. split; [exact H2 |].
  split; [exact H3 |]. split; [exact H4 |]. split; [exact H5 |].
  split; [reflexivity | exact H6].
Defined.

(** C1 as stated fails: with samples (t=0, 10 W) and (t=5 s, 20 W) the
    delta reported at the second sample is 20 W * 5 s = 100 J, not
    10 W * 5 s = 50 J. *)
Lemma previous_power_counterexample :
  ∃ s1 s2 d,
    value_updated ascii_runtime initial node7 (power 10) watts 0 = Ok s1
    ∧ consumed_counter s1 = []
    ∧ value_updated ascii_runtime s1 node7 (power 20) watts 5000 = Ok s2
    ∧ consumed_counter s2 = [(labels_of node7 (power 20), d)]
    ∧ num_eq d (Fin 100)
    ∧ ¬ num_eq d (Fin (10 * 5)).
Proof.
  eexists _, _, _.
  split; [vm_compute; reflexivity |].
  split; [reflexivity |].
  split; [vm_compute; reflexivity |].
  split; [reflexivity |].
  split; [reflexivity |].
  intros H. vm_compute in H. discriminate H.
Qed.

(** C2, amended: over every run whose timestamps never go back and whose
    routed power samples are non-negative numbers, the [joules] of every
    accumulator is non-decreasing from the moment the accumulator exists,
    and no delta reported to the counter is negative. The handler has no
    clamp on the elapsed time, so nothing is promised for a run outside
    these conditions. *)
Theorem joules_never_decrease (rt : Runtime) (us1 us2 : list update) (lo : Q)
    (k : jsstring) (r : rec) :
  ascending lo (us1 ++ us2) →
  Forall (power_sample_ok rt) (us1 ++ us2) →
  consumption (run rt initial us1) !! k = Some r →
  (∃ r', consumption (run rt initial (us1 ++ us2)) !! k = Some r'
         ∧ num_le (joules r) (joules r'))
  ∧ Forall nonneg_delta (consumed_counter (run rt initial (us1 ++ us2))).
Proof.
  intros Hasc Hall Hk.
  assert (Hacc0 : accumulators_before lo initial) by (intros k' r'; done).
  split.
  - apply ascending_app in Hasc as [Hasc1 Hasc2].
    apply Forall_app in Hall as [Hall1 Hall2].
    destruct (run_joules rt us1 initial lo cache_ok_initial Hacc0 Hasc1 Hall1)
      as [Hacc1 _].
    destruct (run_joules rt us2 (run rt initial us1) (final_time lo us1)
                (run_cache_ok rt initial us1 cache_ok_initial) Hacc1 Hasc2 Hall2)
      as [_ Hmono].
    unfold run in *. rewrite foldl_app. by apply Hmono.
  - apply (run_counter rt _ initial lo); done || apply cache_ok_initial.
Qed.

Lemma joules_never_decrease_witness :
  (∃ r', consumption (run ascii_runtime initial ([sample 10 0] ++ [sample 20 5000]))
           !! consumption_key node7 (power 10) = Some r'
         ∧ num_le (joules {| last := 0; joules := Fin 0 |}) (joules r'))
  ∧ Forall nonneg_delta
      (consumed_counter
         (run ascii_runtime initial ([sample 10 0] ++ [sample 20 5000]))).
Proof.
  apply (joules_never_decrease ascii_runtime [sample 10 0] [sample 20 5000] 0
           (consumption_key node7 (power 10)) {| last := 0; joules := Fin 0 |}).
  - split; [| split]; vm_compute; try discriminate; exact I.
  - repeat constructor; intros _; eexists; (split; [reflexivity |]);
      vm_compute; discriminate.
  - vm_compute. reflexivity.
Defined.

(** C2 as stated fails, in two ways. A sample stamped t = 3 s after one
    stamped t = 5 s has its negative elapsed time used as it is: [joules]
    drops from 0 to 10 W * (-2 s) = -20 J, and -20, not zero, is the delta
    passed to [inc]. And with a clock that only goes forward, a sample of
    -10 W five seconds after the first one does the same with -50 J. The
    accumulator is written before [inc] is called: prom-client's counter
    refuses the negative amount with an exception, which ends the handler
    and leaves the accumulator lowered. *)
Lemma joules_decrease_counterexample :
  (∃ s1 s2 r1 r2 d,
     value_updated ascii_runtime initial node7 (power 10) watts 5000 = Ok s1
     ∧ consumption s1 !! consumption_key node7 (power 10) = Some r1
     ∧ s2 = react ascii_runtime s1 (sample 10 3000)
     ∧ value_updated ascii_runtime s1 node7 (power 10) watts 3000 = Throw Error
     ∧ consumption s2 !! consumption_key node7 (power 10) = Some r2
     ∧ consumed_counter s2 = [(labels_of node7 (power 10), d)]
     ∧ num_eq d (Fin (-20))
     ∧ ¬ num_eq d (Fin 0)
     ∧ num_lt (joules r2) (joules r1))
  ∧ (∃ s1 s2 r1 r2 d,
       value_updated ascii_runtime initial node7 (power 10) watts 0 = Ok s1
       ∧ consumption s1 !! consumption_key node7 (power 10) = Some r1
       ∧ s2 = react ascii_runtime s1 (sample (-10) 5000)
       ∧ value_updated ascii_runtime s1 node7 (power (-10)) watts 5000
         = Throw Error
       ∧ consumption s2 !! consumption_key node7 (power 10) = Some r2
       ∧ consumed_counter s2 = [(labels_of node7 (power 10), d)]
       ∧ num_eq d (Fin (-50))
       ∧ num_lt (joules r2) (joules r1)).
Proof.
  split.
  - eexists _, _, _, _, _.
    do 2 (split; [vm_compute; reflexivity |]).
    split; [reflexivity |].
    do 2 (split; [vm_compute; reflexivity |]).
    split; [reflexivity |]. split; [reflexivity |].
    split; [| reflexivity]. intros H. vm_compute in H. discriminate H.
  - eexists _, _, _, _, _.
    do 2 (split; [vm_compute; reflexivity |]).
    split; [reflexivity |].
    do 2 (split; [vm_compute; reflexivity |]).
    split; [reflexivity |]. split; reflexivity.
Qed.

(** C9, amended: an event reaches the energy accrual exactly when its
    derived identifier is the string [zwave_electric_w_consumed_watts] and
    the handler gets past the registration of lines 103-110, that is, when
    the gauge of the identifier is cached or prom-client accepts to create
    it. When it does, [consumption] and the counter are those the accrual
    leaves; when it does not, both are untouched; and since an accrual
    always leaves a trace (a new accumulator or a new [inc] call), the two
    cases are told apart by the state alone. The decision of line 112 is
    the equality of strings alone. *)
Theorem routed_iff_identifier (rt : Runtime) (us : list update) (n : node)
    (v : value_event) (md : metadata) (time : Q)
    (unit : option jsstring) (mv : option number) :
  coerce (newValue v) (m_unit md) = Ok (unit, mv) →
  let s := run rt initial us in
  let s' := react rt s (at_time n v md time) in
  let name := metric_name rt (value_name v) (suffix rt unit) in
  let reached :=
    name = electric_w_consumed_watts ∧ creatable rt s name (m_label md) in
  (reached →
   consumption s'
   = consumption (accrue rt s (consumption_key n v) (labels_of n v) mv time).1
   ∧ consumed_counter s'
     = consumed_counter
         (accrue rt s (consumption_key n v) (labels_of n v) mv time).1)
  ∧ (¬ reached →
     consumption s' = consumption s ∧ consumed_counter s' = consumed_counter s)
  ∧ (reached
     ↔ (consumption s', consumed_counter s')
       ≠ (consumption s, consumed_counter s))
  ∧ (is_routed rt (at_time n v md time) = true ↔ name = electric_w_consumed_watts)
  ∧ value_updated rt s n v md time
    = match first_exception rt s n v md time unit mv with
      | Some e => Throw e
      | None => Ok s'
      end.
Proof.
  intros Hco s s' name reached.
  pose proof (run_cache_ok rt initial us cache_ok_initial) as Hok. fold s in Hok.
  assert (Hyes : reached →
                 consumption s'
                 = consumption
                     (accrue rt s (consumption_key n v) (labels_of n v) mv time).1
                 ∧ consumed_counter s'
                   = consumed_counter
                       (accrue rt s (consumption_key n v) (labels_of n v) mv
                          time).1).
  { intros [Hname Hcr].
    destruct (react_consumption rt s n v md time unit mv Hok Hco Hcr)
      as [Hacc _].
    by apply Hacc. }
  assert (Hno : ¬ reached →
                consumption s' = consumption s
                ∧ consumed_counter s' = consumed_counter s).
  { intros Hnot.
    destruct (decide (name = electric_w_consumed_watts)) as [Hname | Hname].
    - assert (Hs' : s' = s).
      { apply (react_refused rt s n v md time unit mv Hco).
        intros Hcr. apply Hnot. by split. }
      by rewrite Hs'.
    - pose proof (steps_cases rt s n v md time) as Hc. rewrite Hco in Hc.
      destruct Hc as [Hcr | (e & _ & _ & Hst)].
      + destruct (react_consumption rt s n v md time unit mv Hok Hco Hcr)
          as [_ Hrest].
        by apply Hrest.
      + unfold s', react, at_time. cbn [u_node u_value u_meta u_time].
        by rewrite Hst. }
  split; [exact Hyes |]. split; [exact Hno |]. split; [| split].
  - split.
    + intros Hr. destruct (Hyes Hr) as [-> ->]. apply accrue_changes.
    + intros Hne. destruct (decide (name = electric_w_consumed_watts))
        as [Hname | Hname].
      * split; [done |].
        pose proof (steps_cases rt s n v md time) as Hc. rewrite Hco in Hc.
        destruct Hc as [Hcr | (e & Hn & He & Hst)]; [done |].
        destruct Hne. destruct Hno as [-> ->]; [| done].
        intros [_ [[r Hr] | Hacc]]; fold name in Hn, He; congruence.
      * destruct Hne. destruct Hno as [-> ->]; [| done]. by intros [? _].
  - rewrite (is_routed_coerced rt (at_time n v md time) unit mv Hco).
    apply bool_decide_eq_true.
  - by apply value_updated_first_exception.
Qed.

Lemma routed_iff_identifier_witness :
  ∃ s',
    value_updated ascii_runtime (run ascii_runtime initial []) node7
      (power 10) watts 0 = Ok s'
    ∧ (consumption s', consumed_counter s')
      ≠ (consumption (run ascii_runtime initial []),
         consumed_counter (run ascii_runtime initial [])).
Proof.
  destruct (routed_iff_identifier ascii_runtime [] node7 (power 10) watts 0
              (Some (lit "W")) (Some (Fin 10)) eq_refl)
    as (_ & _ & Hiff & _ & Hv).
  eexists. split; [exact Hv |]. apply Hiff.
  split; [| right]; by vm_compute.
Defined.

(** C9 as stated fails: a power sample whose description is the empty
    string has the identifier [zwave_electric_w_consumed_watts], but
    prom-client refuses to create a gauge without a description: the
    handler ends at line 105 with its exception, before the test of line
    112, and the event is not integrated: no accumulator is created. *)
Lemma refused_power_gauge_counterexample :
  let md := {| m_unit := Some (lit "W"); m_label := [] |} in
  coerce (newValue (power 10)) (m_unit md) = Ok (Some (lit "W"), Some (Fin 10))
  ∧ metric_name ascii_runtime (value_name (power 10))
      (suffix ascii_runtime (Some (lit "W"))) = electric_w_consumed_watts
  ∧ value_updated ascii_runtime initial node7 (power 10) md 0 = Throw Error
  ∧ consumption (react ascii_runtime initial (at_time node7 (power 10) md 0))
      !! consumption_key node7 (power 10) = None
  ∧ consumption (react ascii_runtime initial (at_time node7 (power 10) md 0))
    = consumption initial
  ∧ consumed_counter
      (react ascii_runtime initial (at_time node7 (power 10) md 0)) = [].
Proof.
  cbv zeta. split; [reflexivity |]. repeat split; by vm_compute.
Qed.

(** C4, amended: on a reaction whose identifier is cached, the cache, the
    registry and the number of gauges stay as they are and the cached gauge
    keeps its description whatever the event supplies. On a reaction whose
    identifier is not cached yet and whose gauge prom-client accepts to
    create, exactly one gauge is created, with the description of that
    event, cached under the identifier and registered. When prom-client
    refuses to create the gauge, the handler ends with the exception of
    the constructor and nothing is created, cached or registered, so the
    identifier is still not cached at the next event. In every state the
    process reaches, no two gauges share an identifier and each gauge is
    registered once. *)
Theorem registry_cache (rt : Runtime) (us : list update) (n : node)
    (v : value_event) (md : metadata) (time : Q)
    (unit : option jsstring) (mv : option number) :
  coerce (newValue v) (m_unit md) = Ok (unit, mv) →
  let s := run rt initial us in
  let name := metric_name rt (value_name v) (suffix rt unit) in
  let s' := react rt s (at_time n v md time) in
  NoDup (g_name <$> store s')
  ∧ registry s' = seq 0 (length (store s'))
  ∧ match metrics s !! name, gauge_throws rt name (m_label md) with
    | Some r, _ =>
        metrics s' = metrics s
        ∧ registry s' = registry s
        ∧ length (store s') = length (store s)
        ∧ ∃ g g', store s !! r = Some g ∧ store s' !! r = Some g'
                  ∧ g_name g' = name ∧ g_help g' = g_help g
    | None, None =>
        metrics s' = <[name := length (store s)]> (metrics s)
        ∧ registry s' = registry s ++ [length (store s)]
        ∧ length (store s') = S (length (store s))
        ∧ ∃ g', store s' !! length (store s) = Some g'
                ∧ g_name g' = name ∧ g_help g' = m_label md
    | None, Some e =>
        value_updated rt s n v md time = Throw e
        ∧ s' = s
        ∧ metrics s' !! name = None
    end.
Proof.
  intros Hco s name s'.
  pose proof (run_cache_ok rt initial us cache_ok_initial) as Hok. fold s in Hok.
  pose proof (react_cache_ok rt s (at_time n v md time) Hok) as Hok'.
  fold s' in Hok'.
  split; [by apply cache_ok_NoDup |]. split; [by destruct Hok' |].
  assert (Hgauge : ∀ r0 g0,
             creatable rt s name (m_label md) →
             metrics (register_metric rt s name (m_label md)).1 !! name = Some r0 →
             store (register_metric rt s name (m_label md)).1 !! r0 = Some g0 →
             ∃ g', store s' !! r0 = Some g'
                   ∧ g_name g' = g_name g0 ∧ g_help g' = g_help g0).
  { intros r0 g0 Hcr Hr0 Hg0.
    destruct (steps_spec rt s n v md time unit mv Hok Hco Hcr)
      as (r & g & Hr & Hg & _ & _ & _ & _ & _ & _ & Hlast).
    fold name in Hr, Hg, Hlast.
    assert (r0 = r) as -> by congruence.
    assert (g0 = g) as -> by congruence.
    destruct (accrual_throws rt s n v name mv time).
    - destruct Hlast as [_ Hst]. exists g. unfold s', react, at_time.
      cbn [u_node u_value u_meta u_time]. by rewrite Hst.
    - destruct Hlast as (_ & Hg' & _). by exists (gauge_set g (labels_of n v) mv). }
  assert (Hshape : creatable rt s name (m_label md) →
                   metrics s' = metrics (register_metric rt s name (m_label md)).1
                   ∧ registry s' = registry (register_metric rt s name (m_label md)).1
                   ∧ length (store s')
                     = length (store (register_metric rt s name (m_label md)).1)).
  { intros Hcr.
    by destruct (steps_spec rt s n v md time unit mv Hok Hco Hcr)
      as (r & g & _ & _ & _ & ? & ? & ? & _). }
  destruct (metrics s !! name) as [r0 |] eqn:Hcached.
  - assert (Hcr : creatable rt s name (m_label md)) by (left; by eexists).
    destruct (ok_metrics _ Hok _ _ Hcached) as (g & Hg & Hgn).
    specialize (Hgauge r0 g Hcr). destruct (Hshape Hcr) as (Hm & Hreg & Hlen).
    rewrite (register_metric_cached rt s name (m_label md) r0 Hcached)
      in Hgauge, Hm, Hreg, Hlen.
    cbn [fst] in Hgauge, Hm, Hreg, Hlen.
    destruct (Hgauge Hcached Hg) as (g' & Hg' & Hgn' & Hgh').
    assert (Hcase : metrics s' = metrics s ∧ registry s' = registry s
                    ∧ length (store s') = length (store s)
                    ∧ ∃ g g', store s !! r0 = Some g ∧ store s' !! r0 = Some g'
                              ∧ g_name g' = name ∧ g_help g' = g_help g).
    { do 3 (split; [done |]). exists g, g'. repeat split; congruence. }
    by destruct (gauge_throws rt name (m_label md)).
  - destruct (gauge_throws rt name (m_label md)) as [e |] eqn:Hthrows.
    + assert (Hst : value_updated_steps rt s n v md time = (s, Some e))
        by by eapply steps_refused.
      assert (Hs' : s' = s) by (unfold s', react, at_time; cbn; by rewrite Hst).
      split; [by rewrite value_updated_of_steps, Hst |].
      split; [done |]. by rewrite Hs'.
    + assert (Hcr : creatable rt s name (m_label md)) by by right.
      specialize (Hgauge (length (store s))
                    {| g_name := name; g_help := m_label md; g_sets := [] |} Hcr).
      destruct (Hshape Hcr) as (Hm & Hreg & Hlen).
      rewrite (register_metric_fresh rt s name (m_label md) Hcached
                 (metric_name_not_inherited rt _ _)), Hthrows
        in Hgauge, Hm, Hreg, Hlen.
      unfold new_gauge in Hgauge, Hm, Hreg, Hlen.
      cbn [fst metrics store registry] in Hgauge, Hm, Hreg, Hlen.
      rewrite length_app, Nat.add_1_r in Hlen.
      do 3 (split; [done |]).
      destruct Hgauge as (g' & Hg' & Hgn' & Hgh');
        [apply lookup_insert_eq | by apply list_lookup_middle |].
      by exists g'.
Qed.

Lemma registry_cache_witness :
  ∃ s',
    s' = react ascii_runtime (run ascii_runtime initial [sample 10 0])
           (at_time node7 (power 20)
              {| m_unit := Some (lit "W"); m_label := lit "another text" |} 5000)
    ∧ NoDup (g_name <$> store s')
    ∧ registry s' = seq 0 (length (store s'))
    ∧ registry s' = [0%nat]
    ∧ g_help <$> store s' = [lit "Electric Consumption [W]"].
Proof.
  destruct (registry_cache ascii_runtime [sample 10 0] node7 (power 20)
              {| m_unit := Some (lit "W"); m_label := lit "another text" |}
              5000 (Some (lit "W")) (Some (Fin 20)) eq_refl)
    as (Hnd & Hreg & _).
  eexists. split; [reflexivity |]. split; [exact Hnd |]. split; [exact Hreg |].
  split; by vm_compute.
Defined.

(** C4 as stated fails: the unit "pulse count" gives the identifier
    [zwave_countpulse count], which prom-client refuses as the name of a
    metric. The first reaction with it creates and registers nothing and
    ends with the exception of the constructor, and so does the second:
    the identifier is never cached. *)
Lemma refused_identifier_counterexample :
  let v := {| endpoint := 0; propertyName := lit "Count";
              propertyKeyName := None; newValue := PNum (Fin 3) |} in
  let md := {| m_unit := Some (lit "pulse count"); m_label := lit "Count" |} in
  let name := lit "zwave_countpulse count" in
  coerce (newValue v) (m_unit md) = Ok (Some (lit "pulse count"), Some (Fin 3))
  ∧ metric_name ascii_runtime (value_name v)
      (suffix ascii_runtime (Some (lit "pulse count"))) = name
  ∧ metrics initial !! name = None
  ∧ value_updated ascii_runtime initial node7 v md 0 = Throw Error
  ∧ react ascii_runtime initial (at_time node7 v md 0) = initial
  ∧ value_updated ascii_runtime
      (react ascii_runtime initial (at_time node7 v md 0)) node7 v md 1000
    = Throw Error
  ∧ store (run ascii_runtime initial
             [at_time node7 v md 0; at_time node7 v md 1000]) = []
  ∧ registry (run ascii_runtime initial
                [at_time node7 v md 0; at_time node7 v md 1000]) = [].
Proof.
  cbv zeta. split; [reflexivity |]. split; [by vm_compute |].
  split; [reflexivity |]. repeat split; by vm_compute.
Qed.

(** C5: a boolean payload is coerced to 1 for true and 0 for false, with no
    unit; a number to itself, with the unit of the metadata; a composite
    to its [value], with its own [unit] when it has one and the unit of the
    metadata otherwise. A reaction that gets to line 127 then calls [set]
    with exactly that value on the gauge named after that unit. *)
Theorem coercion_of_valid_shapes (rt : Runtime) (us : list update) (n : node)
    (v : value_event) (md : metadata) (time : Q) :
  let given unit mv :=
    coerce (newValue v) (m_unit md) = Ok (unit, mv)
    ∧ (reaches_set rt (run rt initial us) n v md time unit mv →
       handled rt (run rt initial us) n v md time (value_name v) unit mv) in
  match newValue v with
  | PBool b => given None (Some (Fin (if b then 1 else 0)))
  | PNum x => given (m_unit md) (Some x)
  | PObj value (Some unit) => given (Some unit) value
  | PObj value None => given (m_unit md) value
  | PUndefined | PNull | PStr _ => True
  end.
Proof.
  pose proof (run_cache_ok rt initial us cache_ok_initial) as Hok.
  cbv zeta.
  destruct (newValue v) as [| | b | x | str | value [unit |]] eqn:Hv; try exact I;
    (split; [reflexivity |]);
    apply value_updated_handled; try exact Hok; by rewrite Hv.
Qed.

Example coerce_true : coerce (PBool true) (Some (lit "W")) = Ok (None, Some (Fin 1)).
Proof. reflexivity. Qed.

Example coerce_42_W :
  coerce (PNum (Fin 42)) (Some (lit "W")) = Ok (Some (lit "W"), Some (Fin 42)).
Proof. reflexivity. Qed.

Example coerce_composite_V :
  coerce (PObj (Some (Fin (33 # 10))) (Some (lit "V"))) (Some (lit "W"))
  = Ok (Some (lit "V"), Some (Fin (33 # 10))).
Proof. reflexivity. Qed.

(** C10: the raw name given to the name derivation is [propertyKeyName]
    when that is present and not the empty string, and [propertyName]
    otherwise; the gauge a reaction sets at line 127 is the one named after
    it. *)
Theorem raw_name_selection (rt : Runtime) (us : list update) (n : node)
    (v : value_event) (md : metadata) (time : Q) :
  let raw :=
    match propertyKeyName v with
    | Some k => if bool_decide (k = []) then propertyName v else k
    | None => propertyName v
    end in
  value_name v = raw
  ∧ match coerce (newValue v) (m_unit md) with
    | Ok (unit, mv) =>
        reaches_set rt (run rt initial us) n v md time unit mv →
        handled rt (run rt initial us) n v md time raw unit mv
    | Throw _ => True
    end.
Proof.
  cbv zeta.
  assert (Hraw : value_name v
                 = match propertyKeyName v with
                   | Some k => if bool_decide (k = []) then propertyName v else k
                   | None => propertyName v
                   end).
  { unfold value_name, or_else. by destruct (propertyKeyName v) as [[| c k] |]. }
  split; [exact Hraw |]. rewrite <- Hraw.
  destruct (coerce (newValue v) (m_unit md)) as [[unit mv] | e] eqn:Hco; [| exact I].
  apply value_updated_handled; [| exact Hco].
  apply run_cache_ok, cache_ok_initial.
Qed.

(** C8: the name derivation and the unit normalizer are functions of the
    raw name and the unit alone and have no failing case: when a later
    event has the same raw name and a unit with the same suffix, it is
    given the identifier the first one was given; the suffix of a unit is
    the empty string, its table entry, the text of an inherited member or
    the unit itself; and a reaction to a payload that can be coerced, in
    whatever state and at whatever time, throws only what a call into
    prom-client throws. When the gauge of the first event is cached or can
    be created, the later event finds the identifier cached under the same
    gauge. *)
Theorem derivation_total_and_repeatable (rt : Runtime) (us1 us2 : list update)
    (n1 n2 : node) (v1 v2 : value_event) (md1 md2 : metadata) (t1 t2 : Q)
    (unit1 unit2 : option jsstring) (mv1 mv2 : option number) :
  value_name v2 = value_name v1 →
  suffix rt unit2 = suffix rt unit1 →
  coerce (newValue v1) (m_unit md1) = Ok (unit1, mv1) →
  coerce (newValue v2) (m_unit md2) = Ok (unit2, mv2) →
  let name := metric_name rt (value_name v1) (suffix rt unit1) in
  let s0 := run rt initial us1 in
  let s1 := react rt s0 (at_time n1 v1 md1 t1) in
  let s1' := run rt s1 us2 in
  let s2 := react rt s1' (at_time n2 v2 md2 t2) in
  metric_name rt (value_name v2) (suffix rt unit2) = name
  ∧ ((truthy unit1 = false ∧ suffix rt unit1 = [])
     ∨ ∃ u, unit1 = Some u
            ∧ ((∃ m, unit_mapping !! u = Some m ∧ suffix rt unit1 = m)
               ∨ (unit_mapping !! u = None ∧ is_inherited u = true
                  ∧ suffix rt unit1 = inherited_text rt u)
               ∨ (unit_mapping !! u = None ∧ is_inherited u = false
                  ∧ suffix rt unit1 = u)))
  ∧ value_updated rt s0 n1 v1 md1 t1
    = match first_exception rt s0 n1 v1 md1 t1 unit1 mv1 with
      | Some e => Throw e
      | None => Ok s1
      end
  ∧ (creatable rt s0 name (m_label md1) →
     ∃ r, metrics s1 !! name = Some r
          ∧ metrics s2 !! metric_name rt (value_name v2) (suffix rt unit2) = Some r
          ∧ g_name <$> store s2 !! r = Some name
          ∧ value_updated rt s1' n2 v2 md2 t2
            = match accrual_throws rt s1' n2 v2 name mv2 t2 with
              | Some e => Throw e
              | None =>
                  match set_throws rt (labels_of n2 v2) mv2 with
                  | Some e => Throw e
                  | None => Ok s2
                  end
              end).
Proof.
  intros Hraw Hsfx Hco1 Hco2 name s0 s1 s1' s2. rewrite Hraw, Hsfx. fold name.
  split; [done |]. split; [exact (suffix_cases rt unit1) |].
  pose proof (run_cache_ok rt initial us1 cache_ok_initial) as Hok0. fold s0 in Hok0.
  split; [by apply value_updated_first_exception |].
  intros Hcr.
  destruct (react_cached rt s0 n1 v1 md1 t1 unit1 mv1 Hok0 Hco1 Hcr)
    as (r & g & Hr & _). fold name s1 in Hr.
  pose proof (react_cache_ok rt s0 (at_time n1 v1 md1 t1) Hok0) as Hok1.
  fold s1 in Hok1.
  pose proof (run_cache_ok rt s1 us2 Hok1) as Hok1'. fold s1' in Hok1'.
  pose proof (run_keeps rt s1 us2 name r Hok1 Hr) as Hr'. fold s1' in Hr'.
  pose proof (react_keeps rt s1' (at_time n2 v2 md2 t2) name r Hok1' Hr') as Hr2.
  fold s2 in Hr2.
  pose proof (react_cache_ok rt s1' (at_time n2 v2 md2 t2) Hok1') as Hok2.
  fold s2 in Hok2.
  exists r. do 2 (split; [done |]). split.
  { destruct (ok_metrics _ Hok2 _ _ Hr2) as (g' & -> & Hgn). cbn. by rewrite Hgn. }
  assert (Hcr2 : creatable rt s1'
                   (metric_name rt (value_name v2) (suffix rt unit2)) (m_label md2)).
  { left. rewrite Hraw, Hsfx. fold name. by exists r. }
  rewrite (value_updated_reached rt s1' n2 v2 md2 t2 unit2 mv2 Hok1' Hco2 Hcr2).
  rewrite Hraw, Hsfx. by fold name.
Qed.

Lemma derivation_total_and_repeatable_witness :
  ∃ s1 s2 r,
    value_updated ascii_runtime (run ascii_runtime initial []) node7
      (power 10) watts 0 = Ok s1
    ∧ value_updated ascii_runtime (run ascii_runtime s1 [sample 15 1000])
        node7 (power 20) watts 5000 = Ok s2
    ∧ metrics s1 !! electric_w_consumed_watts = Some r
    ∧ metrics s2 !! electric_w_consumed_watts = Some r.
Proof.
  destruct (derivation_total_and_repeatable ascii_runtime [] [sample 15 1000]
              node7 node7 (power 10) (power 20) watts watts 0 5000
              (Some (lit "W")) (Some (lit "W")) (Some (Fin 10)) (Some (Fin 20))
              eq_refl eq_refl eq_refl eq_refl)
    as (_ & _ & Hv1 & Hrest).
  destruct Hrest as (r & Hr1 & Hr2 & _ & Hv2); [right; by vm_compute |].
  eexists _, _, r. split; [exact Hv1 |]. split; [exact Hv2 |].
  split; [exact Hr1 | exact Hr2].
Defined.

(** C3, amended: a payload that is [undefined] or [null] makes the handler
    raise a [TypeError] at the property access of line 91, before anything
    is written, so the state is as before the event. A string payload is
    not rejected by the coercion: it goes through the composite branch, its
    value is [undefined] and its unit the one of the metadata, and the
    handler goes on with them; when it gets to line 127 it calls [set] with
    [undefined] on the gauge of the event, and ends as that call ends. *)
Theorem other_payload_shapes (rt : Runtime) (us : list update) (n : node)
    (v : value_event) (md : metadata) (time : Q) :
  match newValue v with
  | PUndefined | PNull =>
      coerce (newValue v) (m_unit md) = Throw TypeError
      ∧ value_updated rt (run rt initial us) n v md time = Throw TypeError
      ∧ react rt (run rt initial us) (at_time n v md time) = run rt initial us
  | PStr _ =>
      coerce (newValue v) (m_unit md) = Ok (m_unit md, None)
      ∧ (reaches_set rt (run rt initial us) n v md time (m_unit md) None →
         handled rt (run rt initial us) n v md time (value_name v) (m_unit md)
           None)
  | PBool _ | PNum _ | PObj _ _ => True
  end.
Proof.
  pose proof (run_cache_ok rt initial us cache_ok_initial) as Hok.
  assert (Hthrow : coerce (newValue v) (m_unit md) = Throw TypeError →
                   value_updated rt (run rt initial us) n v md time = Throw TypeError
                   ∧ react rt (run rt initial us) (at_time n v md time)
                     = run rt initial us).
  { intros Hco.
    pose proof (steps_throw rt (run rt initial us) n v md time _ Hco) as Hst.
    split; [by rewrite value_updated_of_steps, Hst |].
    unfold react, at_time. cbn [u_node u_value u_meta u_time]. by rewrite Hst. }
  destruct (newValue v) as [| | b | x | str | value unit] eqn:Hv; try exact I.
  - split; [done |]. by apply Hthrow.
  - split; [done |]. by apply Hthrow.
  - split; [done |]. intros Hreach.
    apply value_updated_handled; [done | by rewrite Hv | done].
Qed.

(** C3 as stated fails: the string payload "on" is none of the three valid
    shapes, yet the coercion signals nothing and the handler goes on: the
    gauge is created and registered, and [set] is called on it with
    [undefined]. It is this call of line 127 that throws, with the
    [TypeError] of prom-client, and the gauge registered for the event
    stays. Nor is the event isolated: after two texts received as power
    samples the accumulator of the device holds [NaN], and it still does
    after the next sample that is a number. *)
Lemma string_payload_counterexample :
  let v := {| endpoint := 0; propertyName := lit "Mode";
              propertyKeyName := None; newValue := PStr (lit "on") |} in
  let s' := react ascii_runtime initial (at_time node7 v watts 0) in
  valid_shape (newValue v) = false
  ∧ coerce (newValue v) (m_unit watts) = Ok (Some (lit "W"), None)
  ∧ value_updated ascii_runtime initial node7 v watts 0 = Throw TypeError
  ∧ set_throws ascii_runtime (labels_of node7 v) None = Some TypeError
  ∧ metrics s' !! lit "zwave_mode_watts" = Some 0%nat
  ∧ registry s' = [0%nat]
  ∧ store s'
    = [{| g_name := lit "zwave_mode_watts";
          g_help := lit "Electric Consumption [W]";
          g_sets := [(labels_of node7 v, None)] |}]
  ∧ joules <$> consumption (run ascii_runtime initial
                              [at_time node7 text_power watts 0;
                               at_time node7 text_power watts 1000;
                               sample 20 5000])
                 !! consumption_key node7 (power 20)
    = Some NaN.
Proof.
  cbv zeta. split; [reflexivity |]. split; [reflexivity |].
  split; [by vm_compute |]. split; [reflexivity |].
  split; [by vm_compute |]. split; [by vm_compute |]. split; by vm_compute.
Qed.

(** C6, amended: the sanitized name part of an identifier never contains a
    space, a subscript-2 or a parenthesis, and the suffix is appended as it
    is; so the identifier is free of these characters exactly when the
    suffix is, which is the case for an absent unit and for every unit of
    the mapping table. *)
Theorem identifier_characters (rt : Runtime) (raw sfx unit : jsstring) :
  clean (sanitize rt raw) = true
  ∧ clean (metric_name rt raw sfx) = clean sfx
  ∧ clean (metric_name rt raw (suffix rt None)) = true
  ∧ match unit_mapping !! unit with
    | Some _ => clean (metric_name rt raw (suffix rt (Some unit))) = true
    | None => True
    end.
Proof.
  split; [apply clean_sanitize |]. split; [apply clean_metric_name |].
  split; [by rewrite clean_metric_name |].
  destruct (unit_mapping !! unit) as [m |] eqn:Hm; [| exact I].
  rewrite clean_metric_name.
  apply elem_of_list_to_map_2 in Hm.
  repeat (apply elem_of_cons in Hm as [[= -> ->] | Hm]; [by vm_compute |]).
  by apply elem_of_nil in Hm.
Qed.

(** C6 as stated fails: the unit "pulse count" is not in the mapping table,
    so it is its own suffix, and the identifier derived with it contains a
    space. *)
Lemma suffix_space_counterexample :
  suffix ascii_runtime (Some (lit "pulse count")) = lit "pulse count"
  ∧ metric_name ascii_runtime (lit "Count")
      (suffix ascii_runtime (Some (lit "pulse count")))
    = lit "zwave_countpulse count"
  ∧ SPACE ∈ metric_name ascii_runtime (lit "Count")
              (suffix ascii_runtime (Some (lit "pulse count"))).
Proof.
  split; [by vm_compute |]. split; [by vm_compute |].
  apply (bool_decide_unpack _). by vm_compute.
Qed.

(** C7: with a positive ceiling the process exits with status 1 as soon as
    a firing of the interval reads a resident set size above the ceiling;
    with a ceiling that is zero (or not positive) the interval is never
    installed and the process keeps running whatever the readings are; and
    an unset [MAX_RSS], like "0", gives the ceiling zero. *)
Theorem watchdog_exits (max_rss : Z) (readings : list Z) :
  ((0 < max_rss)%Z → Exists (λ rss, (max_rss < rss)%Z) readings →
   watchdog max_rss readings = Exited 1)
  ∧ ((max_rss ≤ 0)%Z → watchdog max_rss readings = Running)
  ∧ (watchdog max_rss readings = Running
     ∨ watchdog max_rss readings = Exited 1)
  ∧ MAX_RSS None = Int 0
  ∧ MAX_RSS (Some (lit "0")) = Int 0
  ∧ MAX_RSS (Some (lit "1000")) = Int 1000.
Proof.
  assert (Hticks : ∀ l, watchdog_ticks max_rss l = Running
                        ∨ watchdog_ticks max_rss l = Exited 1).
  { induction l as [| rss l IH]; [by left |]. cbn. unfold watchdog_tick.
    destruct (rss >? max_rss)%Z; [by right | exact IH]. }
  split; [| split; [| split; [| by vm_compute]]].
  - intros Hpos Hex. unfold watchdog.
    rewrite (proj2 (Z.gtb_lt _ _)) by done.
    induction Hex as [rss l Hgt | rss l Hex IH]; cbn; unfold watchdog_tick.
    + by rewrite (proj2 (Z.gtb_lt _ _)).
    + destruct (rss >? max_rss)%Z; [done | exact IH].
  - intros Hle. unfold watchdog.
    destruct (max_rss >? 0)%Z eqn:E; [| done].
    apply Z.gtb_lt in E. lia.
  - unfold watchdog. destruct (max_rss >? 0)%Z; [apply Hticks | by left].
Qed.

Lemma watchdog_exits_witness :
  watchdog 1000 [800; 1500; 900]%Z = Exited 1.
Proof.
  apply (proj1 (watchdog_exits 1000 [800; 1500; 900]%Z)).
  - reflexivity.
  - apply Exists_cons_tl, Exists_cons_hd. reflexivity.
Defined.

(** ** Worked examples *)

Example derive_electric_w_consumed :
  metric_name ascii_runtime (lit "Electric W Consumed")
    (suffix ascii_runtime (Some (lit "W")))
  = electric_w_consumed_watts.
Proof. by vm_compute. Qed.

(** The same identifier from another property and another unit. *)
Example derive_from_other_parts :
  metric_name ascii_runtime (lit "Electric W")
    (suffix ascii_runtime (Some (lit "_consumed_watts")))
  = electric_w_consumed_watts.
Proof. by vm_compute. Qed.

Example derive_co2_level :
  metric_name ascii_runtime (lit "CO" ++ [SUBSCRIPT_2] ++ lit " Level (Air)")
    (suffix ascii_runtime (Some (lit "ppm")))
  = lit "zwave_co2_level_air_ppm".
Proof. by vm_compute. Qed.

Example suffix_celsius :
  suffix ascii_runtime (Some (DEGREE :: lit "C")) = lit "_celsius".
Proof. by vm_compute. Qed.

Example suffix_unknown_unit :
  suffix ascii_runtime (Some (lit "lux")) = lit "lux".
Proof. by vm_compute. Qed.

Example suffix_inherited_member :
  suffix ascii_runtime (Some (lit "toString"))
  = lit "function toString() { [native code] }".
Proof. by vm_compute. Qed.

Example value_name_key_first :
  value_name {| endpoint := 0; propertyName := lit "value";
                propertyKeyName := Some (lit "Electric W Consumed");
                newValue := PBool true |}
  = lit "Electric W Consumed"
  ∧ value_name {| endpoint := 0; propertyName := lit "value";
                  propertyKeyName := Some []; newValue := PBool true |}
    = lit "value".
Proof. by split. Qed.

(** Value 100, then value 200 two seconds later: both reactions return, the
    gauge holds 100 then 200, and the one increment of the counter is
    200 * 2 = 400. *)
Example end_to_end :
  ∃ s1 s d,
    value_updated ascii_runtime initial node7 (power 100) watts 0 = Ok s1
    ∧ value_updated ascii_runtime s1 node7 (power 200) watts 2000 = Ok s
    ∧ run ascii_runtime initial [sample 100 0; sample 200 2000] = s
    ∧ store s
      = [{| g_name := electric_w_consumed_watts;
            g_help := lit "Electric Consumption [W]";
            g_sets := [(labels_of node7 (power 100), Some (Fin 100));
                       (labels_of node7 (power 200), Some (Fin 200))] |}]
    ∧ consumed_counter s = [(labels_of node7 (power 200), d)]
    ∧ num_eq d (Fin 400).
Proof.
  eexists _, _, _. do 3 (split; [by vm_compute |]). by repeat split.
Qed.

(** A reaction with valid payload gets to line 127 when prom-client
    accepts its gauge. *)
Example power_sample_reaches_set :
  reaches_set ascii_runtime initial node7 (power 10) watts 0
    (Some (lit "W")) (Some (Fin 10)).
Proof. split; [right |]; by vm_compute. Qed.

(** A gauge for degrees Fahrenheit is refused: the degree sign is not a
    character of a metric name. *)
Example fahrenheit_refused :
  value_updated ascii_runtime initial node7
    {| endpoint := 0; propertyName := lit "Air temperature";
       propertyKeyName := None; newValue := PNum (Fin 70) |}
    {| m_unit := Some (DEGREE :: lit "F"); m_label := lit "Air temperature" |} 0
  = Throw Error.
Proof. by vm_compute. Qed.

(** A text as power sample: the accumulator is created, then absorbs a
    [NaN], and each reaction ends with the [TypeError] of [set]. *)
Example text_power_sample :
  value_updated ascii_runtime initial node7 text_power watts 0 = Throw TypeError
  ∧ joules <$> consumption (run ascii_runtime initial
                              [at_time node7 text_power watts 0;
                               at_time node7 text_power watts 1000])
                 !! consumption_key node7 text_power
    = Some NaN.
Proof. split; by vm_compute. Qed.

Example watchdog_disabled :
  watchdog_of (MAX_RSS None) [800; 1500; 900]%Z = Running.
Proof. reflexivity. Qed.

(** A ceiling written with more digits than a binary64 holds is rounded. *)
Example MAX_RSS_rounded :
  MAX_RSS (Some (lit "9007199254740993")) = Int 9007199254740992.
Proof. by vm_compute. Qed.

(** * Further properties of the code *)

(** ** The accumulator key *)

Lemma lit_inj s1 s2 : lit s1 = lit s2 → s1 = s2.
Proof.
  unfold lit. intros H.
  assert (Hl : list_ascii_of_string s1 = list_ascii_of_string s2).
  { revert H. generalize (list_ascii_of_string s1) (list_ascii_of_string s2).
    induction l as [| a l IH]; intros [| b k]; cbn; try done.
    intros [= Hab Hlk]. f_equal; [| by apply IH].
    by rewrite <- (ascii_N_embedding a), <- (ascii_N_embedding b), Hab. }
  by rewrite <- (string_of_list_ascii_of_string s1),
             <- (string_of_list_ascii_of_string s2), Hl.
Qed.

Lemma string_of_uint_digits d :
  Forall (λ c, (48 ≤ c ≤ 57)%N) (lit (NilEmpty.string_of_uint d)).
Proof.
  induction d; cbn; [done | ..]; (apply Forall_cons; split; [lia | exact IHd]).
Qed.

Lemma decimal_digits n : Forall (λ c, (48 ≤ c ≤ 57)%N) (decimal n).
Proof.
  unfold decimal, NilZero.string_of_uint.
  destruct (N.to_uint n) eqn:E; try (rewrite <- E; apply string_of_uint_digits).
  cbn. apply Forall_singleton. lia.
Qed.

Lemma to_uint_not_Nil n : N.to_uint n ≠ Decimal.Nil.
Proof. destruct n; [done |]. apply DecimalPos.Unsigned.to_uint_nonnil. Qed.

Lemma decimal_inj n m : decimal n = decimal m → n = m.
Proof.
  unfold decimal. intros H%lit_inj.
  apply (f_equal NilZero.uint_of_string) in H.
  rewrite !NilZero.usu in H by apply to_uint_not_Nil.
  injection H as H. by apply DecimalN.Unsigned.to_uint_inj.
Qed.

Lemma split_at_colon (a a' b b' : jsstring) :
  58%N ∉ a → 58%N ∉ a' → a ++ 58%N :: b = a' ++ 58%N :: b' → a = a' ∧ b = b'.
Proof.
  revert a'. induction a as [| c a IH]; intros [| c' a'] Ha Ha'; cbn.
  - by intros [= ->].
  - intros [= <- _]. destruct Ha'. apply list_elem_of_here.
  - intros [= -> _]. destruct Ha. apply list_elem_of_here.
  - intros [= -> H]. destruct (IH a') as [-> ->]; try done.
    + intros Hin. apply Ha. by apply list_elem_of_further.
    + intros Hin. apply Ha'. by apply list_elem_of_further.
Qed.

Lemma decimal_no_colon n : 58%N ∉ decimal n.
Proof.
  intros Hin. pose proof (decimal_digits n) as Hd.
  rewrite Forall_forall in Hd. specialize (Hd _ Hin). lia.
Qed.

Lemma consumption_key_same (n n' : node) (v v' : value_event) :
  consumption_key n v = consumption_key n' v' →
  node_id n = node_id n' ∧ endpoint v = endpoint v'.
Proof.
  unfold consumption_key. change (lit ":") with [58%N]. cbn [app].
  intros H. apply split_at_colon in H as [H1 H2]; try apply decimal_no_colon.
  split; by apply decimal_inj.
Qed.

Lemma consumption_key_ids (n n' : node) (v v' : value_event) :
  node_id n = node_id n' → endpoint v = endpoint v' →
  consumption_key n v = consumption_key n' v'.
Proof. intros H1 H2. unfold consumption_key. by rewrite H1, H2. Qed.

(** X1: two events have the same accumulator key exactly when they come
    from the same node id and the same endpoint; the name of the node
    plays no part. *)
Theorem consumption_key_inj (n n' : node) (v v' : value_event) :
  consumption_key n v = consumption_key n' v'
  ↔ node_id n = node_id n' ∧ endpoint v = endpoint v'.
Proof.
  split.
  - apply consumption_key_same.
  - intros [H1 H2]. by apply consumption_key_ids.
Qed.

(** ** Accumulators over a run *)

Section accumulators.
Context (rt : Runtime).

Lemma deltas_of_snoc id e calls lbl x :
  deltas_of id e (calls ++ [(lbl, x)])
  = if decide (l_node lbl = id ∧ l_endpoint lbl = e)
    then deltas_of id e calls ++ [x]
    else deltas_of id e calls.
Proof.
  unfold deltas_of. rewrite filter_app, fmap_app.
  rewrite filter_cons, filter_nil. cbn [fst].
  case_decide; cbn; [done | by rewrite app_nil_r].
Qed.

Lemma react_totals_agree s u :
  cache_ok s → totals_agree s → totals_agree (react rt s u).
Proof.
  intros Hok Hagree n v. specialize (Hagree n v).
  pose proof (react_accrual rt s u Hok) as Hstep.
  destruct (accrues rt s u); [| by destruct Hstep as [-> ->]].
  destruct (decide (consumption_key n v = consumption_key (u_node u) (u_value u)))
    as [Hkey | Hkey].
  - pose proof (consumption_key_same _ _ _ _ Hkey) as [Hid Hend].
    rewrite <- Hkey in Hstep.
    destruct (consumption s !! consumption_key n v) as [r |] eqn:Hk.
    + destruct Hstep as (unit & mv & _ & _ & -> & ->).
      rewrite lookup_insert_eq. cbn [joules].
      rewrite deltas_of_snoc. unfold labels_of; cbn [l_node l_endpoint].
      rewrite decide_True by done. by rewrite foldl_snoc, Hagree.
    + destruct Hstep as [-> ->]. rewrite lookup_insert_eq. cbn [joules].
      by rewrite Hagree.
  - assert (Hlbl : ¬ (l_node (labels_of (u_node u) (u_value u)) = node_id n
                      ∧ l_endpoint (labels_of (u_node u) (u_value u)) = endpoint v)).
    { cbn. intros [Hid Hend]. apply Hkey. by apply consumption_key_ids. }
    destruct (consumption s !! consumption_key (u_node u) (u_value u)) as [r |].
    + destruct Hstep as (unit & mv & _ & _ & -> & ->).
      rewrite lookup_insert_ne by done.
      rewrite deltas_of_snoc. by rewrite decide_False.
    + destruct Hstep as [-> ->]. by rewrite lookup_insert_ne.
Qed.

Lemma run_totals_agree us :
  ∀ s, cache_ok s → totals_agree s → totals_agree (run rt s us).
Proof.
  induction us as [| u us IH]; intros s Hok Hagree; [done |].
  cbn. apply IH; [by apply react_cache_ok | by apply react_totals_agree].
Qed.

(** An accumulator stays, and a total that is [NaN] stays [NaN]. *)
Lemma react_accumulator_stays s u k r :
  cache_ok s → consumption s !! k = Some r →
  ∃ r', consumption (react rt s u) !! k = Some r'
        ∧ (joules r = NaN → joules r' = NaN).
Proof.
  intros Hok Hk. pose proof (react_accrual rt s u Hok) as Hstep.
  destruct (accrues rt s u); [| destruct Hstep as [-> _]; by exists r].
  destruct (decide (k = consumption_key (u_node u) (u_value u))) as [-> | Hne].
  - rewrite Hk in Hstep. destruct Hstep as (unit & mv & _ & _ & -> & _).
    rewrite lookup_insert_eq. eexists. split; [done |].
    cbn. by intros ->.
  - destruct (consumption s !! consumption_key (u_node u) (u_value u)).
    + destruct Hstep as (unit & mv & _ & _ & -> & _).
      rewrite lookup_insert_ne by done. by exists r.
    + destruct Hstep as [-> _]. rewrite lookup_insert_ne by done. by exists r.
Qed.

Lemma run_accumulator_stays us :
  ∀ s k r, cache_ok s → consumption s !! k = Some r →
           ∃ r', consumption (run rt s us) !! k = Some r'
                 ∧ (joules r = NaN → joules r' = NaN).
Proof.
  induction us as [| u us IH]; intros s k r Hok Hk; [by exists r |].
  destruct (react_accumulator_stays s u k r Hok Hk) as (r1 & Hk1 & Hn1).
  destruct (IH (react rt s u) k r1 (react_cache_ok rt s u Hok) Hk1)
    as (r2 & Hk2 & Hn2).
  exists r2. split; [exact Hk2 | auto].
Qed.

(** Each reaction that gets to the accrual adds one accumulator or one
    [inc] call. *)
Lemma run_accrual_count us :
  ∀ s, cache_ok s →
       (length (consumed_counter (run rt s us)) + size (consumption (run rt s us))
        = length (consumed_counter s) + size (consumption s)
          + accruals rt s us)%nat.
Proof.
  induction us as [| u us IH]; intros s Hok; [cbn; lia |].
  cbn [run foldl]. fold (run rt (react rt s u) us).
  rewrite (IH _ (react_cache_ok rt s u Hok)).
  pose proof (react_accrual rt s u Hok) as Hstep. cbn [accruals].
  destruct (accrues rt s u); [| destruct Hstep as [-> ->]; lia].
  destruct (consumption s !! consumption_key (u_node u) (u_value u)) eqn:Hk.
  - destruct Hstep as (unit & mv & _ & _ & -> & ->).
    rewrite length_app, map_size_insert, Hk. cbn. lia.
  - destruct Hstep as [-> ->].
    rewrite map_size_insert, Hk. cbn. lia.
Qed.

(** Only routed updates get to the accrual. *)
Lemma accruals_le us :
  ∀ s, (accruals rt s us ≤ length (List.filter (is_routed rt) us))%nat.
Proof.
  induction us as [| u us IH]; intros s; [done |].
  cbn [accruals List.filter]. specialize (IH (react rt s u)).
  destruct (accrues rt s u) eqn:Hacc.
  - rewrite (accrues_routed rt s u Hacc). cbn. lia.
  - destruct (is_routed rt u); cbn; lia.
Qed.

(** All of them do when prom-client accepts the gauge of the power metric. *)
Lemma accruals_all us :
  ∀ s, Forall (power_gauge_accepted rt) us →
       accruals rt s us = length (List.filter (is_routed rt) us).
Proof.
  induction us as [| u us IH]; intros s Hall; [done |].
  apply Forall_cons in Hall as [Hu Hall].
  cbn [accruals List.filter]. rewrite (IH _ Hall).
  unfold accrues. destruct (is_routed rt u) eqn:Hr; [| done].
  rewrite (bool_decide_eq_true_2 _ (Hu Hr)), orb_true_r. done.
Qed.
End accumulators.

(** X2: a reaction to an event of one node and endpoint leaves the
    accumulator of every other node or endpoint, and the deltas reported
    for it, as they were. *)
Theorem accumulator_of_other_device_untouched (rt : Runtime)
    (us : list update) (u : update) (n' : node) (v' : value_event) :
  node_id n' ≠ node_id (u_node u) ∨ endpoint v' ≠ endpoint (u_value u) →
  consumption (react rt (run rt initial us) u) !! consumption_key n' v'
  = consumption (run rt initial us) !! consumption_key n' v'
  ∧ deltas_of (node_id n') (endpoint v')
      (consumed_counter (react rt (run rt initial us) u))
    = deltas_of (node_id n') (endpoint v')
        (consumed_counter (run rt initial us)).
Proof.
  intros Hother.
  assert (Hkey : consumption_key (u_node u) (u_value u) ≠ consumption_key n' v').
  { intros [Hid Hend]%consumption_key_same. destruct Hother; congruence. }
  pose proof (react_accrual rt (run rt initial us) u
                (run_cache_ok rt initial us cache_ok_initial)) as Hstep.
  destruct (accrues rt (run rt initial us) u); [| by destruct Hstep as [-> ->]].
  destruct (consumption (run rt initial us)
              !! consumption_key (u_node u) (u_value u)).
  - destruct Hstep as (unit & mv & _ & _ & -> & ->).
    rewrite lookup_insert_ne by done.
    split; [done |]. rewrite deltas_of_snoc, decide_False; [done |].
    cbn. intros [Hid Hend]. destruct Hother; congruence.
  - destruct Hstep as [-> ->]. by rewrite lookup_insert_ne.
Qed.

Lemma accumulator_of_other_device_untouched_witness :
  consumption (react ascii_runtime (run ascii_runtime initial [sample 10 0])
                 (at_time node9 (power 5) watts 1000))
    !! consumption_key node7 (power 10)
  = Some {| last := 0; joules := Fin 0 |}.
Proof.
  etrans.
  - apply (accumulator_of_other_device_untouched ascii_runtime
             [sample 10 0] (at_time node9 (power 5) watts 1000)
             node7 (power 10)).
    left. discriminate.
  - vm_compute. reflexivity.
Defined.

(** X3: in every state the process reaches, the [joules] of an accumulator
    is the sum, taken in order from zero, of the deltas passed to the
    counter for its node and endpoint; and while a node and endpoint have
    no accumulator, no delta has been reported for them. *)
Theorem joules_is_sum_of_deltas (rt : Runtime) (us : list update)
    (n : node) (v : value_event) :
  match consumption (run rt initial us) !! consumption_key n v with
  | Some r =>
      joules r
      = foldl num_add (Fin 0)
          (deltas_of (node_id n) (endpoint v)
             (consumed_counter (run rt initial us)))
  | None =>
      deltas_of (node_id n) (endpoint v) (consumed_counter (run rt initial us))
      = []
  end.
Proof.
  apply (run_totals_agree rt us initial cache_ok_initial).
  intros n0 v0. reflexivity.
Qed.

(** X4: an accumulator is never removed, and once its [joules] is [NaN]
    (as after a routed event whose value is not a number) it is [NaN] for
    the rest of the run. *)
Theorem accumulator_stays_and_nan_absorbs (rt : Runtime)
    (us1 us2 : list update) (k : jsstring) (r : rec) :
  consumption (run rt initial us1) !! k = Some r →
  ∃ r', consumption (run rt initial (us1 ++ us2)) !! k = Some r'
        ∧ (joules r = NaN → joules r' = NaN).
Proof.
  intros Hk. unfold run. rewrite foldl_app.
  apply (run_accumulator_stays rt us2 _ k r); [| exact Hk].
  apply run_cache_ok, cache_ok_initial.
Qed.

Lemma accumulator_stays_and_nan_absorbs_witness :
  ∃ r', consumption
          (run ascii_runtime initial
             ([sample 10 0; at_time node7 text_power watts 1000]
              ++ [sample 20 5000; sample 30 9000]))
          !! consumption_key node7 (power 10) = Some r'
        ∧ joules r' = NaN.
Proof.
  destruct (accumulator_stays_and_nan_absorbs ascii_runtime
              [sample 10 0; at_time node7 text_power watts 1000]
              [sample 20 5000; sample 30 9000]
              (consumption_key node7 (power 10))
              {| last := 1000; joules := NaN |})
    as (r' & Hk & Hnan).
  - vm_compute. reflexivity.
  - exists r'. split; [exact Hk | by apply Hnan].
Defined.

(** X5: over a run from the initial state, the number of [inc] calls plus
    the number of accumulators equals the number of events that got to the
    energy accrual: the first such event of a key creates its accumulator
    and reports nothing, every later one makes exactly one [inc] call. Only
    routed events get there, and all of them do when prom-client accepts
    to create the gauge of the power metric. *)
Theorem accrual_count (rt : Runtime) (us : list update) :
  (length (consumed_counter (run rt initial us))
   + size (consumption (run rt initial us))
   = accruals rt initial us)%nat
  ∧ (accruals rt initial us ≤ length (List.filter (is_routed rt) us))%nat
  ∧ (Forall (power_gauge_accepted rt) us →
     (length (consumed_counter (run rt initial us))
      + size (consumption (run rt initial us))
      = length (List.filter (is_routed rt) us))%nat).
Proof.
  assert (Hcount : (length (consumed_counter (run rt initial us))
                    + size (consumption (run rt initial us))
                    = accruals rt initial us)%nat).
  { rewrite (run_accrual_count rt us initial cache_ok_initial).
    cbn. by rewrite map_size_empty. }
  split; [exact Hcount |]. split; [apply accruals_le |].
  intros Hall. by rewrite Hcount, (accruals_all rt us initial Hall).
Qed.

(** ** Gauges over a run *)

Section gauges.
Context (rt : Runtime).

(** The gauge cached under a name after one reaction. *)
Lemma react_gauge s u name r g :
  cache_ok s →
  metrics s !! name = Some r → store s !! r = Some g →
  metrics (react rt s u) !! name = Some r
  ∧ ∃ g', store (react rt s u) !! r = Some g'
          ∧ g_name g' = g_name g ∧ g_help g' = g_help g
          ∧ g_sets g `prefix_of` g_sets g'
          ∧ (identifier_of rt u ≠ Some name → g' = g).
Proof.
  intros Hok Hr Hg. split; [by apply react_keeps |].
  unfold react, identifier_of.
  pose proof (steps_cases rt s (u_node u) (u_value u) (u_meta u) (u_time u)) as Hc.
  destruct (coerce (newValue (u_value u)) (m_unit (u_meta u)))
    as [[unit mv] | e] eqn:Hco; [| rewrite Hc; by exists g].
  destruct Hc as [Hcr | (e & _ & _ & ->)]; [| by exists g].
  destruct (steps_spec rt s (u_node u) (u_value u) (u_meta u) (u_time u)
              unit mv Hok Hco Hcr)
    as (r0 & g0 & Hr0 & Hg0 & Hgn0 & _ & _ & _ & _ & _ & Hlast).
  set (name0 := metric_name rt (value_name (u_value u)) (suffix rt unit)) in *.
  pose proof (register_metric_cache_ok rt s name0 (m_label (u_meta u)) Hok)
    as Hok1.
  pose proof (register_metric_store rt s name0 (m_label (u_meta u)) r g Hg)
    as Hg1.
  pose proof (register_metric_keeps rt s name0 (m_label (u_meta u)) name r Hr)
    as Hr1.
  destruct (accrual_throws rt s (u_node u) (u_value u) name0 mv (u_time u)).
  { destruct Hlast as [_ ->]. by exists g. }
  destruct Hlast as (_ & Hg0' & Hother).
  destruct (decide (r = r0)) as [-> | Hne].
  - assert (g0 = g) as -> by congruence.
    exists (gauge_set g (labels_of (u_node u) (u_value u)) mv).
    split; [done |]. do 2 (split; [done |]).
    split; [by apply prefix_app_r |].
    intros Hdiff. destruct Hdiff. f_equal.
    destruct (ok_metrics _ Hok1 _ _ Hr1) as (g1 & Hg1' & <-).
    congruence.
  - exists g. rewrite Hother by done. by repeat split.
Qed.

Lemma run_gauge us :
  ∀ s name r g,
    cache_ok s → metrics s !! name = Some r → store s !! r = Some g →
    metrics (run rt s us) !! name = Some r
    ∧ ∃ g', store (run rt s us) !! r = Some g'
            ∧ g_name g' = g_name g ∧ g_help g' = g_help g
            ∧ g_sets g `prefix_of` g_sets g'.
Proof.
  induction us as [| u us IH]; intros s name r g Hok Hr Hg.
  - split; [done |]. by exists g.
  - destruct (react_gauge s u name r g Hok Hr Hg)
      as (Hr1 & g1 & Hg1 & Hn1 & Hh1 & Hp1 & _).
    destruct (IH (react rt s u) name r g1 (react_cache_ok rt s u Hok) Hr1 Hg1)
      as (Hr2 & g2 & Hg2 & Hn2 & Hh2 & Hp2).
    split; [exact Hr2 |]. exists g2. split; [exact Hg2 |].
    split; [congruence |]. split; [congruence |]. by etrans.
Qed.

Lemma react_cache_sized s u : cache_ok s → cache_sized s → cache_sized (react rt s u).
Proof.
  intros Hok (Hsize & Hreg & Hpre). unfold react.
  pose proof (steps_cases rt s (u_node u) (u_value u) (u_meta u) (u_time u)) as Hc.
  destruct (coerce (newValue (u_value u)) (m_unit (u_meta u)))
    as [[unit mv] | e] eqn:Hco; [| by rewrite Hc].
  destruct Hc as [Hcr | (e & _ & _ & ->)]; [| done].
  destruct (steps_spec rt s (u_node u) (u_value u) (u_meta u) (u_time u)
              unit mv Hok Hco Hcr)
    as (r0 & g0 & _ & _ & _ & Hm & Hr & Hl & _).
  unfold cache_sized. rewrite Hm, Hr, Hl. clear Hm Hr Hl.
  set (name0 := metric_name rt (value_name (u_value u)) (suffix rt unit)).
  destruct (register_metric_state rt s name0 (m_label (u_meta u)))
    as [-> | [Hcached ->]]; [done |].
  cbn. rewrite (map_size_insert_None _ _ _ Hcached), !length_app. cbn.
  split; [lia |]. split; [lia |].
  intros name r. rewrite lookup_insert. case_decide as Hd.
  - intros _. subst name. by eexists.
  - apply Hpre.
Qed.

Lemma run_cache_sized us :
  ∀ s, cache_ok s → cache_sized s → cache_sized (run rt s us).
Proof.
  induction us as [| u us IH]; intros s Hok Hs; [done |].
  cbn. apply IH; [by apply react_cache_ok | by apply react_cache_sized].
Qed.
End gauges.

(** X6: a reaction whose identifier is not [name] leaves the gauge cached
    under [name] exactly as it was: same reference, same description, same
    recorded values. *)
Theorem other_gauges_untouched (rt : Runtime) (us : list update) (u : update)
    (name : jsstring) (r : nat) :
  identifier_of rt u ≠ Some name →
  metrics (run rt initial us) !! name = Some r →
  metrics (react rt (run rt initial us) u) !! name = Some r
  ∧ store (react rt (run rt initial us) u) !! r = store (run rt initial us) !! r.
Proof.
  intros Hid Hr.
  pose proof (run_cache_ok rt initial us cache_ok_initial) as Hok.
  destruct (ok_metrics _ Hok _ _ Hr) as (g & Hg & _).
  destruct (react_gauge rt _ u name r g Hok Hr Hg)
    as (Hr' & g' & Hg' & _ & _ & _ & Hsame).
  split; [exact Hr' |]. by rewrite Hg', Hg, (Hsame Hid).
Qed.

Lemma other_gauges_untouched_witness :
  store (react ascii_runtime (run ascii_runtime initial [sample 10 0])
           (at_time node7 (voltage 230) volts 1000)) !! 0%nat
  = store (run ascii_runtime initial [sample 10 0]) !! 0%nat.
Proof.
  apply (other_gauges_untouched ascii_runtime [sample 10 0]
           (at_time node7 (voltage 230) volts 1000)
           electric_w_consumed_watts 0%nat).
  - vm_compute. discriminate.
  - vm_compute. reflexivity.
Defined.

(** X7: a gauge, once cached, stays cached under the same identifier and
    reference for the rest of the run, keeps its name and its description,
    and only gains recorded values: those it had remain, in order, at the
    front. *)
Theorem gauge_persists (rt : Runtime) (us1 us2 : list update)
    (name : jsstring) (r : nat) (g : gauge) :
  metrics (run rt initial us1) !! name = Some r →
  store (run rt initial us1) !! r = Some g →
  metrics (run rt initial (us1 ++ us2)) !! name = Some r
  ∧ ∃ g', store (run rt initial (us1 ++ us2)) !! r = Some g'
          ∧ g_name g' = g_name g ∧ g_help g' = g_help g
          ∧ g_sets g `prefix_of` g_sets g'.
Proof.
  intros Hr Hg. unfold run. rewrite foldl_app.
  apply (run_gauge rt us2 _ name r g); try done.
  apply run_cache_ok, cache_ok_initial.
Qed.

Lemma gauge_persists_witness :
  ∃ g', store (run ascii_runtime initial
                 ([sample 10 0]
                  ++ [at_time node9 (power 5)
                        {| m_unit := Some (lit "W"); m_label := lit "other" |}
                        1000]))
          !! 0%nat = Some g'
        ∧ g_help g' = lit "Electric Consumption [W]"
        ∧ [(labels_of node7 (power 10), Some (Fin 10))] `prefix_of` g_sets g'.
Proof.
  destruct (gauge_persists ascii_runtime [sample 10 0]
              [at_time node9 (power 5)
                 {| m_unit := Some (lit "W"); m_label := lit "other" |} 1000]
              electric_w_consumed_watts 0%nat
              {| g_name := electric_w_consumed_watts;
                 g_help := lit "Electric Consumption [W]";
                 g_sets := [(labels_of node7 (power 10), Some (Fin 10))] |})
    as (_ & g' & Hg' & _ & Hh & Hp).
  - vm_compute. reflexivity.
  - vm_compute. reflexivity.
  - exists g'. by repeat split.
Defined.

(** X8: in every state the process reaches there are as many cached
    identifiers as gauges and as registrations, and every cached
    identifier starts with [zwave_]. *)
Theorem cache_sizes (rt : Runtime) (us : list update) :
  size (metrics (run rt initial us)) = length (store (run rt initial us))
  ∧ length (registry (run rt initial us)) = length (store (run rt initial us))
  ∧ map_Forall (λ name _, ∃ rest, name = lit "zwave_" ++ rest)
      (metrics (run rt initial us)).
Proof.
  destruct (run_cache_sized rt us initial cache_ok_initial) as (H1 & H2 & H3).
  { split; [done |]. split; [done |]. intros name r. cbn.
    by rewrite lookup_empty. }
  split; [exact H1 |]. split; [exact H2 |]. intros name r. apply H3.
Qed.

(** X9: in every state the process reaches, the handler throws exactly
    when the payload is [undefined] or [null], with a [TypeError] and the
    state untouched, or when one of the calls into prom-client it gets to
    throws: the constructor of line 105 for an identifier that is not
    cached, [inc] at line 122, [set] at line 127; the exception is that of
    the first of them that throws. The lookup [metrics[metric_name]] of
    line 127 never misses: a reaction that gets there finds the gauge
    cached, and otherwise the identifier is not cached and its gauge
    refused. *)
Theorem reaction_outcome (rt : Runtime) (us : list update) (n : node)
    (v : value_event) (md : metadata) (time : Q) :
  let s := run rt initial us in
  let s' := react rt s (at_time n v md time) in
  match coerce (newValue v) (m_unit md) with
  | Throw e =>
      (newValue v = PUndefined ∨ newValue v = PNull)
      ∧ value_updated rt s n v md time = Throw TypeError
      ∧ s' = s
  | Ok (unit, mv) =>
      let name := metric_name rt (value_name v) (suffix rt unit) in
      newValue v ≠ PUndefined ∧ newValue v ≠ PNull
      ∧ value_updated rt s n v md time
        = match first_exception rt s n v md time unit mv with
          | Some e => Throw e
          | None => Ok s'
          end
      ∧ ((∃ s'', value_updated rt s n v md time = Ok s'')
         ↔ first_exception rt s n v md time unit mv = None)
      ∧ (is_Some (metrics s' !! name)
         ∨ (metrics s' !! name = None
            ∧ is_Some (gauge_throws rt name (m_label md))
            ∧ first_exception rt s n v md time unit mv
              = gauge_throws rt name (m_label md)))
  end.
Proof.
  intros s s'.
  pose proof (run_cache_ok rt initial us cache_ok_initial) as Hok. fold s in Hok.
  pose proof (steps_cases rt s n v md time) as Hc.
  destruct (coerce (newValue v) (m_unit md)) as [[unit mv] | e] eqn:Hco.
  - cbv zeta.
    assert (Hv : value_updated rt s n v md time
                 = match first_exception rt s n v md time unit mv with
                   | Some e => Throw e
                   | None => Ok s'
                   end)
      by by apply value_updated_first_exception.
    split; [intros Hp; by rewrite Hp in Hco |].
    split; [intros Hp; by rewrite Hp in Hco |].
    split; [exact Hv |]. split.
    { rewrite Hv. destruct (first_exception rt s n v md time unit mv).
      - split; [by intros [s'' [=]] | done].
      - split; [done | by eexists]. }
    destruct Hc as [Hcr | (e & Hn & He & Hst)].
    + left. destruct (react_cached rt s n v md time unit mv Hok Hco Hcr)
        as (r & g & Hr & _). by exists r.
    + right. assert (Hs' : s' = s).
      { unfold s', react, at_time. cbn [u_node u_value u_meta u_time].
        by rewrite Hst. }
      rewrite Hs'. split; [done |]. split; [by eexists |].
      unfold first_exception. by rewrite Hn, He.
  - apply coerce_throws in Hco as [-> Hp]. split; [done |].
    split; [by rewrite value_updated_of_steps, Hc |].
    unfold s', react, at_time. cbn [u_node u_value u_meta u_time]. by rewrite Hc.
Qed.

(** ** The watchdog and its ceiling *)

Lemma watchdog_ticks_exit max_rss readings :
  watchdog_ticks max_rss readings = Exited 1
  ↔ Exists (λ rss, (max_rss < rss)%Z) readings.
Proof.
  induction readings as [| rss l IH]; cbn.
  - split; [done | by intros H%Exists_nil].
  - unfold watchdog_tick. rewrite Exists_cons.
    destruct (rss >? max_rss)%Z eqn:E.
    + apply Z.gtb_lt in E. split; [by left | done].
    + rewrite IH. split; [by right |]. intros [H | H]; [| done].
      apply Z.gtb_lt in H. congruence.
Qed.

(** X10: the process is ended by the watchdog exactly when the ceiling is
    positive and some firing reads a resident set size strictly above it;
    a reading equal to the ceiling does not end it. *)
Theorem watchdog_exit_iff (max_rss : Z) (readings : list Z) :
  (watchdog max_rss readings = Exited 1
   ↔ (0 < max_rss)%Z ∧ Exists (λ rss, (max_rss < rss)%Z) readings)
  ∧ (watchdog max_rss readings = Running
     ↔ (max_rss ≤ 0)%Z ∨ Forall (λ rss, (rss ≤ max_rss)%Z) readings).
Proof.
  assert (Hexit : watchdog max_rss readings = Exited 1
                  ↔ (0 < max_rss)%Z ∧ Exists (λ rss, (max_rss < rss)%Z) readings).
  { unfold watchdog. destruct (max_rss >? 0)%Z eqn:E.
    - apply Z.gtb_lt in E. rewrite watchdog_ticks_exit. tauto.
    - split; [done |]. intros [Hpos _]. apply Z.gtb_lt in Hpos. congruence. }
  split; [exact Hexit |].
  assert (Hcases : watchdog max_rss readings = Running
                   ∨ watchdog max_rss readings = Exited 1).
  { unfold watchdog. destruct (max_rss >? 0)%Z; [| by left].
    clear Hexit. induction readings as [| rss l IH]; [by left |].
    cbn. unfold watchdog_tick.
    destruct (rss >? max_rss)%Z; [by right | exact IH]. }
  assert (Hnot : Forall (λ rss, (rss ≤ max_rss)%Z) readings
                 ↔ ¬ Exists (λ rss, (max_rss < rss)%Z) readings).
  { rewrite <- Forall_Exists_neg. apply Forall_iff. intros rss. lia. }
  rewrite Hnot. split.
  - intros Hrun. destruct (decide (max_rss ≤ 0)%Z) as [| Hpos]; [by left |].
    right. intros Hex. assert (Hx : watchdog max_rss readings = Exited 1).
    { apply Hexit. split; [lia | done]. }
    congruence.
  - intros Hor. destruct Hcases as [| Hx]; [done |].
    apply Hexit in Hx as [Hpos Hex]. destruct Hor; [lia | contradiction].
Qed.










(** ** Logging *)

Section logging.
Context {V : Type} (str : jsstring → V).

Lemma LOG_LEVELS_range k n : LOG_LEVELS !! k = Some n → (1 ≤ n ≤ 4)%N.
Proof.
  intros H. apply elem_of_list_to_map_2 in H.
  repeat (apply elem_of_cons in H as [[= _ ->] | H]; [lia |]).
  by apply elem_of_nil in H.
Qed.


(** The threshold is the rank of [LOGLEVEL] when that is one of the four
    levels, and the rank of [info] when it names nothing. *)
Lemma LOG_LEVEL_rank env :
  is_inherited (default (lit "undefined") env) = false →
  ∃ m, LOG_LEVEL env = Rank m ∧ (1 ≤ m ≤ 4)%N
       ∧ match LOG_LEVELS !! default (lit "undefined") env with
         | Some k => m = k
         | None => m = 2%N
         end.
Proof.
  intros Hinh. unfold LOG_LEVEL, LOG_LEVELS_at. rewrite Hinh.
  destruct (LOG_LEVELS !! default (lit "undefined") env) as [k |] eqn:Hk.
  - pose proof (LOG_LEVELS_range _ _ Hk) as Hr.
    destruct (k =? 0)%N eqn:E; [apply N.eqb_eq in E; lia |].
    exists k. split; [done |]. split; [exact Hr | done].
  - exists 2%N. split; [by vm_compute |]. split; [lia | done].
Qed.

Lemma log_written threshold ts now level message kv :
  is_Some (log str threshold ts now level message kv)
  ↔ rank_ge (LOG_LEVELS_at (if LOG_LEVELS_has level then level else lit "error"))
      threshold = true.
Proof.
  unfold log. by destruct (rank_ge _ threshold); split; try done.
Qed.
End logging.

(** X12: with a [LOGLEVEL] that is one of the four levels, or that is
    neither a level nor the name of a member inherited from
    [Object.prototype] (then the threshold is that of [info]), a message at
    one of the four levels is written exactly when its rank is not below
    the threshold; so an [error] message is always written. *)
Theorem log_written_iff {V : Type} (str : jsstring → V)
    (env : option jsstring) (ts : bool) (now level : jsstring) (message : V)
    (kv : option (gmap jsstring V)) (n : N) :
  LOG_LEVELS !! level = Some n →
  is_inherited (default (lit "undefined") env) = false →
  ∃ m, LOG_LEVEL env = Rank m
       ∧ match LOG_LEVELS !! default (lit "undefined") env with
         | Some k => m = k
         | None => m = 2%N
         end
       ∧ (is_Some (log str (LOG_LEVEL env) ts now level message kv)
          ↔ (m ≤ n)%N)
       ∧ (n = 4%N → is_Some (log str (LOG_LEVEL env) ts now level message kv)).
Proof.
  intros Hn Hinh.
  destruct (LOG_LEVEL_rank env Hinh) as (m & Hm & Hrange & Hwhich).
  exists m. split; [exact Hm |]. split; [exact Hwhich |].
  assert (Hiff : is_Some (log str (LOG_LEVEL env) ts now level message kv)
                 ↔ (m ≤ n)%N).
  { assert (Hhas : LOG_LEVELS_has level = true).
    { unfold LOG_LEVELS_has. rewrite bool_decide_eq_true_2; [done |].
      by eexists. }
    rewrite log_written, Hm, Hhas. unfold LOG_LEVELS_at. rewrite Hn.
    apply N.leb_le. }
  split; [exact Hiff |]. intros ->. apply Hiff. lia.
Qed.

Lemma log_written_iff_witness :
  is_Some (log (V := jsstring) id (LOG_LEVEL (Some (lit "info"))) false
             (lit "2024-01-01T00:00:00.000Z") (lit "warn") (lit "hello") None)
  ∧ ¬ is_Some (log (V := jsstring) id (LOG_LEVEL (Some (lit "info"))) false
                 (lit "2024-01-01T00:00:00.000Z") (lit "debug") (lit "hello")
                 None).
Proof.
  split.
  - destruct (log_written_iff (V := jsstring) id (Some (lit "info")) false
                (lit "2024-01-01T00:00:00.000Z") (lit "warn") (lit "hello")
                None 3%N) as (m & _ & Hm & Hiff & _);
      [by vm_compute | by vm_compute |].
    vm_compute in Hm. subst m. apply Hiff. lia.
  - destruct (log_written_iff (V := jsstring) id (Some (lit "info")) false
                (lit "2024-01-01T00:00:00.000Z") (lit "debug") (lit "hello")
                None 1%N) as (m & _ & Hm & Hiff & _);
      [by vm_compute | by vm_compute |].
    vm_compute in Hm. subst m. intros H. apply Hiff in H. lia.
Defined.

(** X13: a message whose level is neither one of the four levels nor the
    name of a member inherited from [Object.prototype] is never dropped,
    under any [LOGLEVEL] that is not the name of such a member either: it
    is written with [console.error], and its record carries the given
    level under both [level] and [original_level] and the message under
    [log], whatever [kv] held under these names. *)
Theorem log_unknown_level {V : Type} (str : jsstring → V)
    (env : option jsstring) (ts : bool) (now level : jsstring) (message : V)
    (kv : option (gmap jsstring V)) :
  LOG_LEVELS_has level = false →
  is_inherited (default (lit "undefined") env) = false →
  ∃ line,
    log str (LOG_LEVEL env) ts now level message kv = Some line
    ∧ method line = lit "error"
    ∧ fields line !! lit "log" = Some message
    ∧ fields line !! lit "original_level" = Some (str level)
    ∧ fields line !! lit "level" = Some (str level).
Proof.
  intros Hhas Hinh.
  destruct (LOG_LEVEL_rank env Hinh) as (m & Hm & Hrange & _).
  unfold log. rewrite Hhas, Hm.
  replace (rank_ge (LOG_LEVELS_at (lit "error")) (Rank m)) with true.
  2: { symmetry. change (LOG_LEVELS_at (lit "error")) with (Rank 4).
       cbn. apply N.leb_le. lia. }
  eexists. split; [done |]. cbn [method fields].
  split; [done |]. split; [apply lookup_insert_eq |].
  split.
  - rewrite lookup_insert_ne by (by vm_compute). apply lookup_insert_eq.
  - rewrite lookup_insert_ne by (by vm_compute).
    rewrite lookup_insert_ne by (by vm_compute). apply lookup_insert_eq.
Qed.

Lemma log_unknown_level_witness :
  ∃ line,
    log (V := jsstring) id (LOG_LEVEL (Some (lit "error"))) false
      (lit "2024-01-01T00:00:00.000Z") (lit "notice") (lit "hello")
      (Some {[ lit "level" := lit "mine" ]}) = Some line
    ∧ method line = lit "error"
    ∧ fields line !! lit "level" = Some (lit "notice").
Proof.
  destruct (log_unknown_level (V := jsstring) id (Some (lit "error")) false
              (lit "2024-01-01T00:00:00.000Z") (lit "notice") (lit "hello")
              (Some {[ lit "level" := lit "mine" ]}))
    as (line & Hl & Hm & _ & _ & Hlevel); [by vm_compute | by vm_compute |].
  exists line. by repeat split.
Defined.


